(** * voicecc TTS sidecar: a shallow embedding of [sidecar/tts-server.py]

    The server loads a speech model, then reads JSON commands from stdin on a
    background thread while the main thread runs generations and writes
    length-prefixed PCM frames to stdout.  This file embeds the Python code
    as Rocq functions over an explicit world state and proves properties of
    the frame stream, of interruption and of command ordering. *)

From Stdlib Require Import String Ascii ZArith NArith List Bool Lia.
From Stdlib Require Import Strings.Byte Floats.SpecFloat DecimalString.
Import ListNotations.

Local Open Scope Z_scope.
Set Warnings "-register-all".

(* ------------------------------------------------------------------ *)
(** ** Python values *)

(** A Python [str] is a sequence of Unicode code points. *)
Definition pystr := list N.

(** An ASCII literal as a Python [str]. *)
Definition py (s : string) : pystr :=
  map N_of_ascii (list_ascii_of_string s).
Arguments py s : simpl never.

Definition pystr_eqb (a b : pystr) : bool :=
  if list_eq_dec N.eq_dec a b then true else false.

(** [str.isspace] on one code point: the whitespace characters of the
    Unicode database as CPython tabulates them. *)
Definition isspace (c : N) : bool :=
  (((9 <=? c) && (c <=? 13)) || ((28 <=? c) && (c <=? 32))
   || (c =? 133) || (c =? 160) || (c =? 5760)
   || ((8192 <=? c) && (c <=? 8202))
   || (c =? 8232) || (c =? 8233) || (c =? 8239) || (c =? 8287)
   || (c =? 12288))%N.

Fixpoint lstrip (s : pystr) : pystr :=
  match s with
  | c :: r => if isspace c then lstrip r else s
  | [] => []
  end.

Definition rstrip (s : pystr) : pystr := rev (lstrip (rev s)).

(** [str.strip()] with no argument. *)
Definition strip (s : pystr) : pystr := rstrip (lstrip s).

(** The text of a raised exception, as [f"{e}"] prints it. *)
Definition exn := pystr.

Inductive result (A : Type) : Type :=
| Ok (a : A)
| Raised (e : exn).
Arguments Ok {A} a.
Arguments Raised {A} e.

(* ------------------------------------------------------------------ *)
(** ** Bytes and [struct.pack] *)

Definition byte_of_Z (z : Z) : byte :=
  match Byte.of_N (Z.to_N (z mod 256)) with
  | Some b => b
  | None => x00
  end.

Definition Z_of_byte (b : byte) : Z := Z.of_N (Byte.to_N b).

(** [struct.pack(">I", n)]: four bytes, most significant first;
    [struct.error] when [n] does not fit an unsigned 32-bit integer. *)
Definition struct_pack_I (n : Z) : result (list byte) :=
  if (0 <=? n) && (n <? 2 ^ 32) then
    Ok [byte_of_Z (Z.shiftr n 24); byte_of_Z (Z.shiftr n 16);
        byte_of_Z (Z.shiftr n 8); byte_of_Z n]
  else Raised (py "'I' format requires 0 <= number <= 4294967295").

Definition len {A : Type} (l : list A) : Z := Z.of_nat (length l).

(** The wire format of the module docstring, read back: a 4-byte big-endian
    length [N], then [N] payload bytes, repeated to the end of the stream. *)
Definition unpack_I (b3 b2 b1 b0 : byte) : Z :=
  Z_of_byte b3 * 2 ^ 24 + Z_of_byte b2 * 2 ^ 16 + Z_of_byte b1 * 2 ^ 8
  + Z_of_byte b0.

Fixpoint parse_frames (fuel : nat) (bs : list byte)
  : option (list (list byte)) :=
  match bs with
  | [] => Some []
  | b3 :: b2 :: b1 :: b0 :: rest =>
      match fuel with
      | O => None
      | S fuel' =>
          let n := Z.to_nat (unpack_I b3 b2 b1 b0) in
          if (n <=? length rest)%nat then
            option_map (cons (firstn n rest))
                       (parse_frames fuel' (skipn n rest))
          else None
      end
  | _ => None
  end.

Definition read_frames (bs : list byte) : option (list (list byte)) :=
  parse_frames (length bs) bs.

(** One frame as [write_audio_chunk] lays it out, and the end marker. *)
Definition frame (payload : list byte) : list byte :=
  match struct_pack_I (len payload) with
  | Ok header => header ++ payload
  | Raised _ => []
  end.

Definition end_marker : list byte := [x00; x00; x00; x00].

Definition count_empty (frames : list (list byte)) : nat :=
  length (filter (fun p => match p with [] => true | _ => false end) frames).

(* ------------------------------------------------------------------ *)
(** ** float32 samples and the PCM encoder *)

(** IEEE 754 binary32: 24 bits of precision, exponent bound 128. *)
Definition float32 := spec_float.
Definition f32_valid (x : float32) : bool := valid_binary 24 128 x.
Definition f32_of_Z (z : Z) : float32 := binary_normalize 24 128 z 0 false.
Definition f32_mul (x y : float32) : float32 := SFmul 24 128 x y.
Definition f32_lt (x y : float32) : bool := SFltb x y.
Definition f32_isnan (x : float32) : bool :=
  match x with S754_nan => true | _ => false end.

(** [np.clip(x, lo, hi)] on one float: [min(max(x, lo), hi)] where each of
    the two keeps a NaN first argument. *)
Definition np_maximum (a b : float32) : float32 :=
  if f32_isnan a then a else if f32_lt b a then a else b.
Definition np_minimum (a b : float32) : float32 :=
  if f32_isnan a then a else if f32_lt a b then a else b.
Definition np_clip (x lo hi : float32) : float32 :=
  np_minimum (np_maximum x lo) hi.

(** The integer part of a float, rounding toward zero; [None] for NaN and
    the infinities. *)
Definition f32_trunc (x : float32) : option Z :=
  match x with
  | S754_zero _ => Some 0
  | S754_finite s m e =>
      Some (cond_Zopp s (if 0 <=? e then Zpos m * 2 ^ e
                         else Zpos m / 2 ^ (- e)))
  | _ => None
  end.

Definition wrap16 (n : Z) : Z := (n + 32768) mod 65536 - 32768.

(** [.astype(np.int16)] on one float32: the C conversion, which truncates
    toward zero.  C leaves NaN undefined; x86-64 and arm64 both give 0. *)
Definition astype_int16 (x : float32) : Z :=
  match f32_trunc x with
  | Some n => wrap16 n
  | None => 0
  end.

(** [ndarray.tobytes()] of an int16 array on a little-endian machine. *)
Definition int16_le (n : Z) : list byte :=
  [byte_of_Z n; byte_of_Z (Z.shiftr n 8)].
Definition tobytes (a : list Z) : list byte := flat_map int16_le a.

Definition float32_to_int16_pcm (audio : list float32) : list byte :=
  let clamped := map (fun x => np_clip x (f32_of_Z (-1)) (f32_of_Z 1)) audio in
  let int16 := map (fun c => astype_int16 (f32_mul c (f32_of_Z 32767))) clamped in
  tobytes int16.

(** The encoder of section 4.4 of the specification, in its words: clamp,
    scale by 32767, truncate toward zero, serialise little-endian. *)
Definition clamp_unit (x : float32) : float32 :=
  if f32_lt (f32_of_Z 1) x then f32_of_Z 1
  else if f32_lt x (f32_of_Z (-1)) then f32_of_Z (-1)
  else x.
Definition encode_sample (x : float32) : list byte :=
  int16_le (astype_int16 (f32_mul (clamp_unit x) (f32_of_Z 32767))).

(* ------------------------------------------------------------------ *)
(** ** JSON values and [json.loads] *)

(** What [json.loads] returns.  A Python [dict] built from a JSON object is
    kept as its pairs in reading order; a later pair overrides an earlier
    one with the same key.  Python's [None] is [JNull]. *)
Inductive json : Type :=
| JNull
| JBool (b : bool)
| JInt (n : Z)
| JFloat (lexeme : pystr)
| JString (s : pystr)
| JArray (items : list json)
| JObject (pairs : list (pystr * json)).

(** The three ways a call of [json.loads] ends: a value, a
    [json.JSONDecodeError], or any other exception (RecursionError on deep
    nesting, ValueError on an integer literal past the digit limit). *)
Inductive loads_result : Type :=
| Loaded (v : json)
| JSONDecodeError (msg : pystr)
| LoadsRaised (e : exn).

(** [d.get(key, default)] on the pairs of a dict. *)
Fixpoint dict_get (pairs : list (pystr * json)) (key : pystr) (default : json)
  : json :=
  match pairs with
  | [] => default
  | (k, v) :: rest =>
      dict_get rest key (if pystr_eqb k key then v else default)
  end.

(** [v == s] for a JSON value [v] and a [str] literal [s]. *)
Definition json_eq_str (v : json) (s : pystr) : bool :=
  match v with
  | JString t => pystr_eqb t s
  | _ => false
  end.

(** A reference decoder after CPython's [json.decoder] and [json.scanner],
    used to run the model on concrete input lines.  The theorems below hold
    for every decoder; this one supplies the instances.  An integer
    literal above [int]'s limit of 4300 digits makes [json.loads] raise
    ValueError, as in CPython; the RecursionError CPython raises on very
    deep nesting depends on the interpreter's stack and is not modelled,
    so the decoder stands for [json.loads] on lines of moderate depth. *)
Module Json.
Local Open Scope nat_scope.

Inductive scan (A : Type) : Type :=
| Scanned (a : A) (rest : pystr) (pos : nat)
| NoValue (pos : nat)
| Bad (msg : pystr) (pos : nat)
| Raises (e : exn).
Arguments Scanned {A} a rest pos.
Arguments NoValue {A} pos.
Arguments Bad {A} msg pos.
Arguments Raises {A} e.

Definition is_ws (c : N) : bool :=
  ((c =? 32) || (c =? 9) || (c =? 10) || (c =? 13))%N.

Fixpoint skip_ws (rest : pystr) (pos : nat) : pystr * nat :=
  match rest with
  | c :: r => if is_ws c then skip_ws r (S pos) else (rest, pos)
  | [] => (rest, pos)
  end.

Definition is_digit (c : N) : bool := ((48 <=? c) && (c <=? 57))%N.

Definition hex_value (c : N) : option N :=
  if is_digit c then Some (c - 48)%N
  else if ((97 <=? c) && (c <=? 102))%N then Some (c - 87)%N
  else if ((65 <=? c) && (c <=? 70))%N then Some (c - 55)%N
  else None.

(** The four hex digits after [\u]. *)
Definition decode_uXXXX (rest : pystr) : option N :=
  match rest with
  | a :: b :: c :: d :: _ =>
      match hex_value a, hex_value b, hex_value c, hex_value d with
      | Some a, Some b, Some c, Some d =>
          Some (((a * 16 + b) * 16 + c) * 16 + d)%N
      | _, _, _, _ => None
      end
  | _ => None
  end.

Definition backslash (c : N) : option N :=
  if (c =? 34)%N then Some 34%N            (* quote *)
  else if (c =? 92)%N then Some 92%N       (* backslash *)
  else if (c =? 47)%N then Some 47%N       (* slash *)
  else if (c =? 98)%N then Some 8%N        (* b *)
  else if (c =? 102)%N then Some 12%N      (* f *)
  else if (c =? 110)%N then Some 10%N      (* n *)
  else if (c =? 114)%N then Some 13%N      (* r *)
  else if (c =? 116)%N then Some 9%N       (* t *)
  else None.

(** The body of a string literal (the C scanner's [scanstring], strict
    mode): [rest] is the text from index [pos] on, [start] the index of the
    opening quote. *)
Fixpoint scanstring (fuel : nat) (acc rest : pystr) (pos start : nat)
  : scan pystr :=
  match fuel with
  | O => Bad (py "Unterminated string starting at") start
  | S fuel' =>
      match rest with
      | [] => Bad (py "Unterminated string starting at") start
      | c :: r =>
          if (c =? 34)%N then Scanned (rev acc) r (S pos)
          else if (c =? 92)%N then
            match r with
            | [] => Bad (py "Unterminated string starting at") start
            | e :: r' =>
                if (e =? 117)%N then
                  match (if 4 <? length r' then decode_uXXXX r' else None) with
                  | None => Bad (py "Invalid \uXXXX escape") (S pos)
                  | Some uni =>
                      let r4 := skipn 4 r' in
                      if ((55296 <=? uni) && (uni <=? 56319))%N
                         && (6 <? length r4) then
                        match r4 with
                        | 92%N :: 117%N :: r6 =>
                            match decode_uXXXX r6 with
                            | None =>
                                Bad (py "Invalid \uXXXX escape") (pos + 7)
                            | Some uni2 =>
                                if ((56320 <=? uni2) && (uni2 <=? 57343))%N
                                then
                                  scanstring fuel'
                                    ((65536 + ((uni - 55296) * 1024
                                               + (uni2 - 56320)))%N :: acc)
                                    (skipn 4 r6) (pos + 12) start
                                else
                                  scanstring fuel' (uni :: acc) r4
                                             (pos + 6) start
                            end
                        | _ => scanstring fuel' (uni :: acc) r4 (pos + 6) start
                        end
                      else scanstring fuel' (uni :: acc) r4 (pos + 6) start
                  end
                else
                  match backslash e with
                  | Some ch => scanstring fuel' (ch :: acc) r' (pos + 2) start
                  | None => Bad (py "Invalid \escape") pos
                  end
            end
          else if (c <? 32)%N then
            Bad (py "Invalid control character at") pos
          else scanstring fuel' (c :: acc) r (S pos) start
      end
  end.

Fixpoint take_digits (rest : pystr) : pystr * pystr :=
  match rest with
  | c :: r =>
      if is_digit c then let (d, r') := take_digits r in (c :: d, r')
      else ([], rest)
  | [] => ([], [])
  end.

Definition digits_value (d : pystr) : Z :=
  fold_left (fun a c => a * 10 + Z.of_N (c - 48))%Z d 0%Z.

(** The integer part of a number, when one starts here: an optional minus
    sign, then a lone zero or a digit run that does not start with zero. *)
Definition match_integer (rest : pystr) : option (pystr * pystr) :=
  let '(sign, r) :=
    match rest with
    | 45%N :: r => ([45%N], r)
    | _ => ([], rest)
    end in
  match r with
  | 48%N :: r' => Some (sign ++ [48%N], r')
  | c :: _ =>
      if is_digit c then
        let (d, r') := take_digits r in Some (sign ++ d, r')
      else None
  | [] => None
  end.

(** The optional fraction: a dot followed by at least one digit. *)
Definition match_frac (rest : pystr) : pystr * pystr :=
  match rest with
  | 46%N :: r =>
      match take_digits r with
      | ([], _) => ([], rest)
      | (d, r') => (46%N :: d, r')
      end
  | _ => ([], rest)
  end.

(** The optional exponent: e or E, an optional sign, at least one digit. *)
Definition match_exp (rest : pystr) : pystr * pystr :=
  match rest with
  | e :: r =>
      if ((e =? 101) || (e =? 69))%N then
        let '(sign, r1) :=
          match r with
          | s :: r1 =>
              if ((s =? 45) || (s =? 43))%N then ([s], r1) else ([], r)
          | [] => ([], r)
          end in
        match take_digits r1 with
        | ([], _) => ([], rest)
        | (d, r') => (e :: sign ++ d, r')
        end
      else ([], rest)
  | [] => ([], rest)
  end.

Definition int_of_lexeme (l : pystr) : Z :=
  match l with
  | 45%N :: d => (- digits_value d)%Z
  | _ => digits_value l
  end.

Definition decimal (n : nat) : pystr :=
  py (NilZero.string_of_int (Z.to_int (Z.of_nat n))).

(** [int(s)] on a literal of more than [sys.get_int_max_str_digits()]
    digits, 4300 unless changed, raises ValueError. *)
Definition int_max_str_digits : nat := 4300.

Definition int_digits (l : pystr) : nat :=
  match l with
  | 45%N :: d => length d
  | _ => length l
  end.

Definition int_limit_error (digits : nat) : exn :=
  py "Exceeds the limit (4300 digits) for integer string conversion: value has "
  ++ decimal digits
  ++ py " digits; use sys.set_int_max_str_digits() to increase the limit".

Definition match_number (rest : pystr) (pos : nat) : option (scan json) :=
  match match_integer rest with
  | None => None
  | Some (i, r1) =>
      let (f, r2) := match_frac r1 in
      let (e, r3) := match_exp r2 in
      let n := length i + length f + length e in
      match f, e with
      | [], [] =>
          if int_max_str_digits <? int_digits i
          then Some (Raises (int_limit_error (int_digits i)))
          else Some (Scanned (JInt (int_of_lexeme i)) r3 (pos + n))
      | _, _ => Some (Scanned (JFloat (i ++ f ++ e)) r3 (pos + n))
      end
  end.

Fixpoint starts_with (prefix rest : pystr) : option pystr :=
  match prefix, rest with
  | [], _ => Some rest
  | p :: prefix', c :: rest' =>
      if (p =? c)%N then starts_with prefix' rest' else None
  | _ :: _, [] => None
  end.

Definition literal (lit : string) (v : json) (rest : pystr) (pos : nat)
  : option (scan json) :=
  match starts_with (py lit) rest with
  | Some r => Some (Scanned v r (pos + length (py lit)))
  | None => None
  end.

Definition or_else {A} (a : option A) (b : A) : A :=
  match a with Some x => x | None => b end.

(** [scan_once], [JSONArray] and [JSONObject]: [rest] is the text from
    index [pos] on. *)
Fixpoint scan_once (fuel : nat) (rest : pystr) (pos : nat) : scan json :=
  match fuel with
  | O => NoValue pos
  | S fuel' =>
      match rest with
      | [] => NoValue pos
      | c :: r =>
          if (c =? 34)%N then
            match scanstring (length r) [] r (S pos) pos with
            | Scanned s r' p => Scanned (JString s) r' p
            | NoValue p => NoValue p
            | Bad m p => Bad m p
            | Raises e => Raises e
            end
          else if (c =? 123)%N then
            let (r1, p1) := skip_ws r (S pos) in
            match r1 with
            | 125%N :: r2 => Scanned (JObject []) r2 (S p1)
            | 34%N :: r2 => scan_pairs fuel' [] r2 (S p1)
            | _ =>
                Bad (py "Expecting property name enclosed in double quotes") p1
            end
          else if (c =? 91)%N then
            let (r1, p1) := skip_ws r (S pos) in
            match r1 with
            | 93%N :: r2 => Scanned (JArray []) r2 (S p1)
            | _ => scan_items fuel' [] r1 p1
            end
          else
            or_else (literal "null" JNull rest pos)
            (or_else (literal "true" (JBool true) rest pos)
            (or_else (literal "false" (JBool false) rest pos)
            (match match_number rest pos with
             | Some number => number
             | None =>
                 or_else (literal "NaN" (JFloat (py "NaN")) rest pos)
                 (or_else
                    (literal "Infinity" (JFloat (py "Infinity")) rest pos)
                 (or_else
                    (literal "-Infinity" (JFloat (py "-Infinity")) rest pos)
                    (NoValue pos)))
             end)))
      end
  end

(** The items of an array, from the first one on. *)
with scan_items (fuel : nat) (acc : list json) (rest : pystr) (pos : nat)
  : scan json :=
  match fuel with
  | O => NoValue pos
  | S fuel' =>
      match scan_once fuel' rest pos with
      | NoValue p => Bad (py "Expecting value") p
      | Bad m p => Bad m p
      | Raises e => Raises e
      | Scanned v r p =>
          let (r1, p1) := skip_ws r p in
          match r1 with
          | 93%N :: r2 => Scanned (JArray (rev (v :: acc))) r2 (S p1)
          | 44%N :: r2 =>
              let (r3, p3) := skip_ws r2 (S p1) in
              scan_items fuel' (v :: acc) r3 p3
          | _ => Bad (py "Expecting ',' delimiter") p1
          end
      end
  end

(** The pairs of an object, from just after the opening quote of a key. *)
with scan_pairs (fuel : nat) (acc : list (pystr * json)) (rest : pystr)
                (pos : nat) : scan json :=
  match fuel with
  | O => NoValue pos
  | S fuel' =>
      match scanstring (length rest) [] rest pos (pos - 1) with
      | NoValue p => NoValue p
      | Bad m p => Bad m p
      | Raises e => Raises e
      | Scanned key r p =>
          let (r1, p1) := skip_ws r p in
          match r1 with
          | 58%N :: r2 =>
              let (r3, p3) := skip_ws r2 (S p1) in
              match scan_once fuel' r3 p3 with
              | NoValue q => Bad (py "Expecting value") q
              | Bad m q => Bad m q
              | Raises e => Raises e
              | Scanned v r4 p4 =>
                  let (r5, p5) := skip_ws r4 p4 in
                  match r5 with
                  | 125%N :: r6 =>
                      Scanned (JObject (rev ((key, v) :: acc))) r6 (S p5)
                  | 44%N :: r6 =>
                      let (r7, p7) := skip_ws r6 (S p5) in
                      match r7 with
                      | 34%N :: r8 =>
                          scan_pairs fuel' ((key, v) :: acc) r8 (S p7)
                      | _ =>
                          Bad (py "Expecting property name enclosed in double quotes") p7
                      end
                  | _ => Bad (py "Expecting ',' delimiter") p5
                  end
              end
          | _ => Bad (py "Expecting ':' delimiter") p1
          end
      end
  end.

(** [str(JSONDecodeError(msg, doc, pos))] for a one-line document. *)
Definition errmsg (msg : pystr) (pos : nat) : pystr :=
  msg ++ py ": line 1 column " ++ decimal (S pos)
      ++ py " (char " ++ decimal pos ++ py ")".

(** [json.loads(s)] for a [str] argument. *)
Definition loads (s : pystr) : loads_result :=
  match s with
  | 65279%N :: _ =>
      JSONDecodeError
        (errmsg (py "Unexpected UTF-8 BOM (decode using utf-8-sig)") 0)
  | _ =>
      let (r0, p0) := skip_ws s 0 in
      match scan_once (2 * length s + 2) r0 p0 with
      | NoValue p => JSONDecodeError (errmsg (py "Expecting value") p)
      | Bad m p => JSONDecodeError (errmsg m p)
      | Raises e => LoadsRaised e
      | Scanned v r p =>
          match skip_ws r p with
          | ([], _) => Loaded v
          | (_ :: _, p') => JSONDecodeError (errmsg (py "Extra data") p')
          end
      end
  end.

(** A line typed with apostrophes for the double quotes of JSON. *)
Definition line (s : string) : pystr :=
  map (fun c => if (c =? 39)%N then 34%N else c) (py s).

End Json.

(* ------------------------------------------------------------------ *)
(** ** The model adapter *)

(** One pull on the lazy sequence [model.generate(...)] returns: a result
    whose [audio] is an array of float32 samples, or an exception.  The end
    of the list is [StopIteration].  An exception raised by the call itself
    is a stream whose first pull throws: both reach the same handler. *)
Inductive pull : Type :=
| Yield (audio : list float32)
| Throw (e : exn).

(** A loaded model: [generate text voice stream]. *)
Record Model : Type := {
  sample_rate : Z;
  generate : pystr -> pystr -> bool -> list pull
}.

Definition SAMPLE_RATE : Z := 24000.
Definition DEFAULT_MODEL : pystr := py "prince-canuma/Kokoro-82M".
Definition DEFAULT_VOICE : pystr := py "af_heart".

(* ------------------------------------------------------------------ *)
(** ** The world: both threads' shared state and the three streams *)

(** [stdin] holds the lines the reader thread has not read yet;
    [reader_alive] falls when that thread dies of an uncaught exception;
    [interrupted] is the [threading.Event], [command_queue] the
    [queue.Queue].  [stdout] and [stderr] are what the server's own code
    has written: writes to either stream are taken to succeed, and the
    traceback Python prints for a dying thread is not part of [stderr].
    [calls] logs the arguments of every [model.generate] call.

    [sched] is the interleaving.  The two threads share the flag and the
    queue only, and the reader thread touches them once per line, so every
    interleaving is one in which the reader thread runs for some number of
    whole lines just before an access of the main thread to the flag or
    the queue.  [sched] lists those numbers, one per access. *)
Record World : Type := mkWorld {
  stdin : list pystr;
  reader_alive : bool;
  interrupted : bool;
  command_queue : list json;
  stdout : list byte;
  stderr : list pystr;
  calls : list (pystr * pystr * bool);
  sched : list nat
}.

Definition with_stdin (v : list pystr) (w : World) : World :=
  mkWorld v (reader_alive w) (interrupted w) (command_queue w) (stdout w)
          (stderr w) (calls w) (sched w).
Definition with_reader_alive (v : bool) (w : World) : World :=
  mkWorld (stdin w) v (interrupted w) (command_queue w) (stdout w)
          (stderr w) (calls w) (sched w).
Definition with_interrupted (v : bool) (w : World) : World :=
  mkWorld (stdin w) (reader_alive w) v (command_queue w) (stdout w)
          (stderr w) (calls w) (sched w).
Definition with_command_queue (v : list json) (w : World) : World :=
  mkWorld (stdin w) (reader_alive w) (interrupted w) v (stdout w)
          (stderr w) (calls w) (sched w).
Definition with_stdout (v : list byte) (w : World) : World :=
  mkWorld (stdin w) (reader_alive w) (interrupted w) (command_queue w) v
          (stderr w) (calls w) (sched w).
Definition with_stderr (v : list pystr) (w : World) : World :=
  mkWorld (stdin w) (reader_alive w) (interrupted w) (command_queue w)
          (stdout w) v (calls w) (sched w).
Definition with_calls (v : list (pystr * pystr * bool)) (w : World) : World :=
  mkWorld (stdin w) (reader_alive w) (interrupted w) (command_queue w)
          (stdout w) (stderr w) v (sched w).
Definition with_sched (v : list nat) (w : World) : World :=
  mkWorld (stdin w) (reader_alive w) (interrupted w) (command_queue w)
          (stdout w) (stderr w) (calls w) v.

(** [sys.stdout.buffer.write(b)] and [sys.stderr.write(s)]. *)
Definition stdout_write (b : list byte) (w : World) : World :=
  with_stdout (stdout w ++ b) w.
Definition stderr_write (s : pystr) (w : World) : World :=
  with_stderr (stderr w ++ [s]) w.

Definition newline : pystr := [10%N].

Definition log (msg : pystr) (w : World) : World :=
  stderr_write (py "[tts-server] " ++ msg ++ newline) w.

Definition write_audio_chunk (pcm_bytes : list byte) (w : World)
  : result World :=
  match struct_pack_I (len pcm_bytes) with
  | Ok header => Ok (stdout_write pcm_bytes (stdout_write header w))
  | Raised e => Raised e
  end.

Definition write_end_marker (w : World) : World :=
  match struct_pack_I 0 with
  | Ok header => stdout_write header w
  | Raised _ => w
  end.

(** The name Python gives the type of a decoded JSON value, and the text of
    the AttributeError for a method it lacks. *)
Definition type_name (v : json) : pystr :=
  match v with
  | JNull => py "NoneType"
  | JBool _ => py "bool"
  | JInt _ => py "int"
  | JFloat _ => py "float"
  | JString _ => py "str"
  | JArray _ => py "list"
  | JObject _ => py "dict"
  end.

Definition attribute_error (v : json) (attr : string) : exn :=
  [39%N] ++ type_name v ++ py "' object has no attribute '" ++ py attr
         ++ [39%N].

Definition str_int (z : Z) : pystr := py (NilZero.string_of_int (Z.to_int z)).

(** How a run of [main] ends: the process exits with a code, the main
    thread dies of an uncaught exception, or it waits on the queue for
    input that the lines at hand do not bring. *)
Inductive outcome : Type :=
| Exited (code : Z)
| Crashed (e : exn)
| Blocked
| OutOfFuel.

Definition READY : pystr := py "READY" ++ newline.

(** [sys.argv[1]] and [sys.argv[2]] with their defaults. *)
Definition argv_model_id (argv : list pystr) : pystr :=
  match argv with
  | _ :: model_id :: _ => model_id
  | _ => DEFAULT_MODEL
  end.

Definition argv_voice (argv : list pystr) : pystr :=
  match argv with
  | _ :: _ :: voice :: _ => voice
  | _ => DEFAULT_VOICE
  end.

Section Server.

(** Python's [json.loads], [str()] on a decoded value, and mlx-audio's
    [load_model]. *)
Variable json_loads : pystr -> loads_result.
Variable py_str : json -> pystr.
Variable load_model : pystr -> result Model.

(** One iteration of the [for line in sys.stdin] loop of [stdin_reader].
    A decoded value that is no dict has no [get]: the AttributeError is
    not caught and ends the thread. *)
Definition stdin_reader_step (w : World) : World :=
  if reader_alive w then
    match stdin w with
    | [] => w
    | line :: rest =>
        let w := with_stdin rest w in
        match strip line with
        | [] => w
        | line =>
            match json_loads line with
            | JSONDecodeError e => log (py "ERROR: Invalid JSON: " ++ e) w
            | LoadsRaised _ => with_reader_alive false w
            | Loaded cmd =>
                match cmd with
                | JObject pairs =>
                    if json_eq_str (dict_get pairs (py "cmd") JNull)
                                   (py "interrupt")
                    then with_interrupted true w
                    else with_command_queue (command_queue w ++ [cmd]) w
                | _ => with_reader_alive false w
                end
            end
        end
    end
  else w.

(** The reader thread running for [n] iterations. *)
Fixpoint stdin_reader (n : nat) (w : World) : World :=
  match n with
  | O => w
  | S n' => stdin_reader n' (stdin_reader_step w)
  end.

(** A point where the main thread is about to touch shared state: the
    reader thread gets the turns the schedule gives it. *)
Definition preempt (w : World) : World :=
  match sched w with
  | [] => w
  | n :: rest => stdin_reader n (with_sched rest w)
  end.

(** The [for result in results] loop of [handle_generate] with the
    [except Exception] handler that encloses it. *)
Fixpoint stream_loop (results : list pull) (w : World) : World :=
  match results with
  | [] => w
  | Throw e :: _ => log (py "ERROR: Generation failed: " ++ e) w
  | Yield audio :: rest =>
      let w := preempt w in
      if interrupted w then w
      else
        let pcm := float32_to_int16_pcm audio in
        match write_audio_chunk pcm w with
        | Raised e => log (py "ERROR: Generation failed: " ++ e) w
        | Ok w' => stream_loop rest w'
        end
  end.

(** [text] is whatever [cmd.get("text", "")] returned; [text.strip()] on a
    value that is no [str] raises before anything is written. *)
Definition handle_generate (model : Model) (text : json) (voice : pystr)
                           (w : World) : result World :=
  match text with
  | JString text =>
      match strip text with
      | [] => Ok (write_end_marker w)
      | _ =>
          let results := generate model text voice true in
          let w := with_calls (calls w ++ [(text, voice, true)]) w in
          Ok (write_end_marker (stream_loop results w))
      end
  | other => Raised (attribute_error other "strip")
  end.

(** [command_queue.get()]: while the queue is empty only the reader thread
    runs.  No command at the end means the main thread stays blocked. *)
Fixpoint queue_get (fuel : nat) (w : World) : option json * World :=
  match command_queue w with
  | cmd :: q => (Some cmd, with_command_queue q w)
  | [] =>
      match fuel with
      | O => (None, w)
      | S fuel' =>
          if reader_alive w then queue_get fuel' (stdin_reader_step w)
          else (None, w)
      end
  end.

Definition command_queue_get (w : World) : option json * World :=
  let w := preempt w in queue_get (length (stdin w)) w.

(** The body of the [while True] loop of [main] once [cmd] is taken from
    the queue: the loop goes on, or the run ends. *)
Definition dispatch (model : Model) (voice : pystr) (cmd : json) (w : World)
  : option outcome * World :=
  match cmd with
  | JObject pairs =>
      let c := dict_get pairs (py "cmd") JNull in
      if json_eq_str c (py "generate") then
        let w := with_interrupted false (preempt w) in
        let text := dict_get pairs (py "text") (JString []) in
        match handle_generate model text voice w with
        | Ok w => (None, w)
        | Raised e => (Some (Crashed e), w)
        end
      else if json_eq_str c (py "quit") then
        (Some (Exited 0), log (py "Shutting down") w)
      else (None, log (py "ERROR: Unknown command: " ++ py_str c) w)
  | other => (Some (Crashed (attribute_error other "get")), w)
  end.

(** The [while True] loop of [main]; every iteration takes one command. *)
Fixpoint main_loop (fuel : nat) (model : Model) (voice : pystr) (w : World)
  : outcome * World :=
  match fuel with
  | O => (OutOfFuel, w)
  | S fuel' =>
      match command_queue_get w with
      | (None, w) => (Blocked, w)
      | (Some cmd, w) =>
          match dispatch model voice cmd w with
          | (None, w) => main_loop fuel' model voice w
          | (Some o, w) => (o, w)
          end
      end
  end.

(** Iterating a stream to its end and dropping the results. *)
Fixpoint drain (results : list pull) : result unit :=
  match results with
  | [] => Ok tt
  | Yield _ :: rest => drain rest
  | Throw e :: _ => Raised e
  end.

(** The warm-up block of [main]. *)
Definition warm_up (model : Model) (voice : pystr) (w : World) : World :=
  let w := log (py "Warming up...") w in
  let results := generate model (py "Hello.") voice false in
  let w := with_calls (calls w ++ [(py "Hello.", voice, false)]) w in
  match drain results with
  | Ok _ => log (py "Warm-up done") w
  | Raised e => log (py "WARNING: Warm-up failed: " ++ e) w
  end.

(** From the model's load to the READY line. *)
Definition startup (argv : list pystr) (w : World)
  : result (Model * pystr) * World :=
  let model_id := argv_model_id argv in
  let voice := argv_voice argv in
  let w := log (py "Loading model: " ++ model_id) w in
  match load_model model_id with
  | Raised e => (Raised e, log (py "ERROR: Failed to load model: " ++ e) w)
  | Ok model =>
      let w := log (py "Model loaded (sample_rate="
                    ++ str_int (sample_rate model) ++ py ")") w in
      let w := warm_up model voice w in
      (Ok (model, voice), stderr_write READY w)
  end.

Definition main (argv : list pystr) (w : World) : outcome * World :=
  match startup argv w with
  | (Raised _, w) => (Exited 1, w)
  | (Ok (model, voice), w) =>
      let w := with_interrupted false (with_command_queue [] w) in
      let w := with_reader_alive true w in
      main_loop (S (length (stdin w))) model voice w
  end.

(* Specification-level readings of a run. *)

(** The commands the reader thread puts on the queue when it reads
    [lines] to the end, in order. *)
Fixpoint arrivals (lines : list pystr) : list json :=
  match lines with
  | [] => []
  | line :: rest =>
      match strip line with
      | [] => arrivals rest
      | line =>
          match json_loads line with
          | JSONDecodeError _ => arrivals rest
          | LoadsRaised _ => []
          | Loaded (JObject pairs) =>
              if json_eq_str (dict_get pairs (py "cmd") JNull) (py "interrupt")
              then arrivals rest
              else JObject pairs :: arrivals rest
          | Loaded _ => []
          end
      end
  end.

(** The commands still to come to the main thread: those queued and those
    the reader thread will queue. *)
Definition pending (w : World) : list json :=
  command_queue w ++ (if reader_alive w then arrivals (stdin w) else []).

(** A line whose reading sets the interrupt flag. *)
Definition is_interrupt_line (line : pystr) : bool :=
  match strip line with
  | [] => false
  | line =>
      match json_loads line with
      | Loaded (JObject pairs) =>
          json_eq_str (dict_get pairs (py "cmd") JNull) (py "interrupt")
      | _ => false
      end
  end.

(** The payloads the loop writes when nothing stops it early: one per
    chunk, up to the first pull that throws or the first chunk too long
    for [struct.pack]. *)
Fixpoint writable (results : list pull) : list (list byte) :=
  match results with
  | Yield audio :: rest =>
      let pcm := float32_to_int16_pcm audio in
      match struct_pack_I (len pcm) with
      | Ok _ => pcm :: writable rest
      | Raised _ => []
      end
  | _ => []
  end.

End Server.

(** The payloads of one generation that runs to its end. *)
Definition payloads_of (model : Model) (text voice : pystr)
  : list (list byte) :=
  match strip text with
  | [] => []
  | _ => writable (generate model text voice true)
  end.

(** The state of the loop of [handle_generate] when its first [k] chunks
    are written and the next pull has not been made: [None] when the loop
    ended before that. *)
Fixpoint after_chunks (json_loads : pystr -> loads_result) (k : nat)
                      (results : list pull) (w : World)
  : option (list pull * World) :=
  match k with
  | O => Some (results, w)
  | S k' =>
      match results with
      | Yield audio :: rest =>
          let w := preempt json_loads w in
          if interrupted w then None
          else
            match write_audio_chunk (float32_to_int16_pcm audio) w with
            | Ok w' => after_chunks json_loads k' rest w'
            | Raised _ => None
            end
      | _ => None
      end
  end.

(** The loop of [handle_generate] for [text], [k] chunks in. *)
Definition generation_after (json_loads : pystr -> loads_result) (k : nat)
                            (model : Model) (text voice : pystr) (w : World)
  : option (list pull * World) :=
  after_chunks json_loads k (generate model text voice true)
               (with_calls (calls w ++ [(text, voice, true)]) w).

(** A world in which no interrupt comes: the flag is clear and no further
    line arrives. *)
Definition uninterrupted (w : World) : World :=
  with_interrupted false (with_stdin [] w).

(** The bytes written to stdout between [w] and a later world [w']. *)
Definition emitted (w w' : World) : list byte :=
  skipn (length (stdout w)) (stdout w').

Definition strict_prefix {A : Type} (p l : list A) : Prop :=
  exists more, more <> [] /\ l = p ++ more.

(** A payload that [struct.pack] accepts. *)
Definition fits (p : list byte) : Prop := len p < 2 ^ 32.

(** The text a generate command carries, and the commands that are one. *)
Definition is_generate (cmd : json) : bool :=
  match cmd with
  | JObject pairs => json_eq_str (dict_get pairs (py "cmd") JNull) (py "generate")
  | _ => false
  end.

Definition text_of (cmd : json) : json :=
  match cmd with
  | JObject pairs => dict_get pairs (py "text") (JString [])
  | _ => JNull
  end.

(** [block] is a possible output of the generation [cmd] asks for: frames
    for the first chunks of its stream, then the end marker. *)
Definition generation_block (model : Model) (voice : pystr) (cmd : json)
                            (block : list byte) : Prop :=
  exists text k,
    text_of cmd = JString text /\
    block = concat (map frame (firstn k (payloads_of model text voice)))
              ++ end_marker.

(** The [model.generate] call a generation of [text] makes, if any, and
    that of a generate command. *)
Definition call_for (voice text : pystr) : list (pystr * pystr * bool) :=
  match strip text with
  | [] => []
  | _ => [(text, voice, true)]
  end.

Definition invocation (voice : pystr) (cmd : json)
  : list (pystr * pystr * bool) :=
  match text_of cmd with
  | JString text => call_for voice text
  | _ => []
  end.

Definition is_quit (cmd : json) : bool :=
  match cmd with
  | JObject pairs => json_eq_str (dict_get pairs (py "cmd") JNull) (py "quit")
  | _ => false
  end.

Definition is_interrupt (cmd : json) : bool :=
  match cmd with
  | JObject pairs =>
      json_eq_str (dict_get pairs (py "cmd") JNull) (py "interrupt")
  | _ => false
  end.

(** How many times the READY line was written. *)
Definition ready_count (w : World) : nat :=
  count_occ (list_eq_dec N.eq_dec) (stderr w) READY.

(** No line still to be read sets the interrupt flag. *)
Definition no_interrupt_ahead (json_loads : pystr -> loads_result)
                              (w : World) : Prop :=
  Forall (fun line => is_interrupt_line json_loads line = false) (stdin w).

(** [w'] differs from [w] by reader-thread turns and log lines only: the
    same bytes on stdout, the same model calls, the same commands to come,
    the same number of READY lines. *)
Definition steady (json_loads : pystr -> loads_result) (w w' : World)
  : Prop :=
  stdout w' = stdout w /\ calls w' = calls w /\
  pending json_loads w' = pending json_loads w /\
  ready_count w' = ready_count w.

(** A command at which the loop of [main] ends: a value that is no
    object, at which [cmd.get] raises; a quit command; a generate command
    whose text is no string, at which [text.strip()] raises. *)
Definition ends_loop (cmd : json) : bool :=
  match cmd with
  | JObject _ =>
      is_quit cmd
      || (is_generate cmd
          && match text_of cmd with JString _ => false | _ => true end)
  | _ => true
  end.

(** The chunks among [chunks] that hold no sample. *)
Definition empty_chunks (chunks : list (list float32)) : nat :=
  length (filter (fun audio => match audio with [] => true | _ => false end)
                 chunks).

(** Why the loop of [handle_generate], arrived in [wk] with [rest] still
    to pull, writes no more: the stream is at its end, the next pull
    throws, the flag is up at the next check, or the next chunk is too
    long for [struct.pack]. *)
Definition stops_at (json_loads : pystr -> loads_result)
                    (rest : list pull) (wk : World) : Prop :=
  match rest with
  | [] => True
  | Throw _ :: _ => True
  | Yield audio :: _ =>
      interrupted (preempt json_loads wk) = true \/
      ~ fits (float32_to_int16_pcm audio)
  end.

(** [chunks] are the chunks a generation of [text] started in [w]
    consumes: none when the text is blank; otherwise the chunks the stream
    yields first, each found with the flag clear and written, up to the
    point where the loop stops. *)
Definition consumes (json_loads : pystr -> loads_result)
                    (model : Model) (text voice : pystr) (w : World)
                    (chunks : list (list float32)) : Prop :=
  match strip text with
  | [] => chunks = []
  | _ =>
      exists rest wk,
        generate model text voice true = map Yield chunks ++ rest /\
        generation_after json_loads (length chunks) model text voice w
        = Some (rest, wk) /\
        stops_at json_loads rest wk
  end.

(* ------------------------------------------------------------------ *)
(** ** A scripted model and concrete runs *)

(** A model for examples: one chunk per character of the text.  A "!"
    throws, a "_" yields an empty chunk, any other character a chunk of
    one sample, 1.0 for an even code point and -1.0 for an odd one. *)
Definition scripted_pull (c : N) : pull :=
  if (c =? 33)%N then Throw (py "model failure")
  else if (c =? 95)%N then Yield []
  else Yield [if N.even c then f32_of_Z 1 else f32_of_Z (-1)].

Definition scripted_model : Model :=
  {| sample_rate := SAMPLE_RATE;
     generate := fun text _ _ => map scripted_pull text |}.

Definition scripted_load (model_id : pystr) : result Model :=
  if pystr_eqb model_id DEFAULT_MODEL then Ok scripted_model
  else Raised (py "no such model").

(** [str()] of a decoded value where its text needs no table: [None],
    the booleans, an [int] and a [str].  For a float it gives the lexeme
    of the line and for a list or a dict a placeholder, which is not
    what Python prints ([str(1.50)] is "1.5"); the examples apply it to
    command names that are strings or absent only, and the theorems hold
    for every [py_str]. *)
Definition str_scalar (v : json) : pystr :=
  match v with
  | JNull => py "None"
  | JBool true => py "True"
  | JBool false => py "False"
  | JInt n => str_int n
  | JFloat lexeme => lexeme
  | JString s => s
  | JArray _ => py "[...]"
  | JObject _ => py "{...}"
  end.

Definition initial_world (lines : list pystr) (schedule : list nat) : World :=
  mkWorld lines true false [] [] [] [] schedule.

(** Unfolds the field accessors and updates of a world. *)
Ltac world_simpl :=
  cbn [stdin reader_alive interrupted command_queue stdout stderr calls sched
       with_stdin with_reader_alive with_interrupted with_command_queue
       with_stdout with_stderr with_calls with_sched stdout_write
       stderr_write] in *.

(** Brings a world built with the setters to its record form. *)
Ltac world_norm :=
  unfold stdout_write, stderr_write, with_stdin, with_reader_alive,
    with_interrupted, with_command_queue, with_stdout, with_stderr,
    with_calls, with_sched;
  cbn [stdin reader_alive interrupted command_queue stdout stderr calls
       sched].

(* ------------------------------------------------------------------ *)
(** ** Reading a PCM payload back *)

(** The int16 value a sample is encoded as: [np.clip], the product with
    32767 and [astype(np.int16)] of [float32_to_int16_pcm] on one sample. *)
Definition sample_int16 (x : float32) : Z :=
  astype_int16
    (f32_mul (np_clip x (f32_of_Z (-1)) (f32_of_Z 1)) (f32_of_Z 32767)).

(** Two bytes, low byte first, as a signed 16-bit integer, and a payload
    read as the docstring of [float32_to_int16_pcm] describes it: raw
    int16 little-endian PCM.  [None] on an odd number of bytes. *)
Definition int16_of_le (lo hi : byte) : Z :=
  wrap16 (Z_of_byte lo + 256 * Z_of_byte hi).

Fixpoint frombuffer_int16 (bs : list byte) : option (list Z) :=
  match bs with
  | [] => Some []
  | lo :: hi :: rest =>
      option_map (cons (int16_of_le lo hi)) (frombuffer_int16 rest)
  | _ => None
  end.

(* ------------------------------------------------------------------ *)
(** ** What the reader thread does with a run of lines *)

Section ReaderReadings.

Variable json_loads : pystr -> loads_result.

(** A line the reader thread survives: blank, undecodable, or an object. *)
Definition survivable (line : pystr) : bool :=
  match strip line with
  | [] => true
  | line =>
      match json_loads line with
      | JSONDecodeError _ => true
      | Loaded (JObject _) => true
      | _ => false
      end
  end.

(** The lines [log] writes for the undecodable lines among [lines]. *)
Fixpoint diagnostics (lines : list pystr) : list pystr :=
  match lines with
  | [] => []
  | line :: rest =>
      match strip line with
      | [] => diagnostics rest
      | line =>
          match json_loads line with
          | JSONDecodeError e =>
              (py "[tts-server] " ++ (py "ERROR: Invalid JSON: " ++ e)
                  ++ newline) :: diagnostics rest
          | _ => diagnostics rest
          end
      end
  end.

End ReaderReadings.

(** [w'] has the lines of [w] on stderr and perhaps more after them. *)
Definition stderr_grows (w w' : World) : Prop :=
  exists logged, stderr w' = stderr w ++ logged.

(* ------------------------------------------------------------------ *)
(** ** [scripts/generate-startup-audio.py] *)

(** How the script ends, and the bytes of [startup.pcm] when it wrote the
    file.  The progress lines it prints are not modelled, and the
    directory and the file are taken to be writable. *)
Inductive script_end : Type :=
| ScriptDone
| ScriptExit (code : Z)
| ScriptCrashed (e : exn).

(** The [for result in model.generate(...)] loop of the script inside its
    [try]: the chunks appended, or the exception that ends it. *)
Fixpoint collect_chunks (results : list pull) : result (list (list float32)) :=
  match results with
  | [] => Ok []
  | Throw e :: _ => Raised e
  | Yield audio :: rest =>
      match collect_chunks rest with
      | Ok chunks => Ok (audio :: chunks)
      | Raised e => Raised e
      end
  end.

(** The script's own [float32_to_int16_pcm] is the server's, line for
    line; the definition above serves both. *)
Module StartupAudio.

Definition MODEL_ID : pystr := py "prince-canuma/Kokoro-82M".
Definition VOICE : pystr := py "af_heart".
Definition STARTUP_TEXT : pystr :=
  py "Hi there! I'm Voice CC. How can I help you today?".

(** [main] of the script.  [load_model] is not inside a [try]; a stream
    that throws prints the error and exits with code 1; [np.concatenate]
    raises ValueError on an empty list; the duration is computed after the
    file is written and divides by the model's sample rate. *)
Definition main (load_model : pystr -> result Model)
  : script_end * option (list byte) :=
  match load_model MODEL_ID with
  | Raised e => (ScriptCrashed e, None)
  | Ok model =>
      match collect_chunks (generate model STARTUP_TEXT VOICE true) with
      | Raised _ => (ScriptExit 1, None)
      | Ok [] =>
          (ScriptCrashed (py "need at least one array to concatenate"), None)
      | Ok chunks =>
          let combined := concat chunks in
          let pcm := float32_to_int16_pcm combined in
          if sample_rate model =? 0 then
            (ScriptCrashed (py "division by zero"), Some pcm)
          else (ScriptDone, Some pcm)
      end
  end.

End StartupAudio.

(** A model that yields the same chunks for every text, for examples. *)
Definition fixed_model (chunks : list (list float32)) : Model :=
  {| sample_rate := SAMPLE_RATE;
     generate := fun _ _ _ => map Yield chunks |}.

(** Input lines for examples: a blank line, a line that is no JSON, a
    generate command and an interrupt; two objects that are no command
    the loop knows; and a quit command between two generate commands. *)
Definition some_lines : list pystr :=
  [py "   "; py "{oops"; Json.line "{'cmd':'generate','text':'ab'}";
   Json.line "{'cmd':'interrupt'}"].

Definition unknown_commands : list pystr :=
  [Json.line "{'cmd':'stop'}"; Json.line "{'text':'ab'}"].

Definition commands_around_quit : list pystr :=
  [Json.line "{'cmd':'generate','text':'ab'}"; Json.line "{'cmd':'quit'}";
   Json.line "{'cmd':'generate','text':'b'}"].

(* ------------------------------------------------------------------ *)
(** * Proofs *)

(** ** Strings *)

Lemma lstrip_head (s : pystr) (c : N) (r : pystr) :
  lstrip s = c :: r -> isspace c = false.
Proof.
  induction s as [|a s IH]; simpl; [discriminate|].
  destruct (isspace a) eqn:Ha; [exact IH|].
  intros [= <- _]. exact Ha.
Qed.

Lemma lstrip_nil (s : pystr) : lstrip s = [] <-> forallb isspace s = true.
Proof.
  induction s as [|a s IH]; simpl; [tauto|].
  destruct (isspace a); simpl; [exact IH|].
  split; discriminate.
Qed.

Lemma strip_nil (s : pystr) : strip s = [] <-> forallb isspace s = true.
Proof.
  unfold strip, rstrip. split.
  - intros H. apply lstrip_nil.
    destruct (lstrip s) as [|c r] eqn:E; [reflexivity|exfalso].
    apply lstrip_head in E.
    apply (f_equal (@rev N)) in H. rewrite rev_involutive in H. simpl in H.
    apply lstrip_nil in H. rewrite forallb_forall in H.
    specialize (H c). rewrite H in E; [discriminate|].
    apply in_or_app. right. left. reflexivity.
  - intros H. apply lstrip_nil in H. rewrite H. reflexivity.
Qed.

(** ** Bytes and frames *)

Lemma Z_of_byte_of_Z (z : Z) : Z_of_byte (byte_of_Z z) = z mod 256.
Proof.
  unfold Z_of_byte, byte_of_Z.
  assert (Hr : 0 <= z mod 256 < 256) by (apply Z.mod_pos_bound; lia).
  destruct (Byte.of_N (Z.to_N (z mod 256))) as [b|] eqn:E.
  - apply Byte.to_of_N in E. rewrite E. lia.
  - apply Byte.of_N_None_iff in E. lia.
Qed.

Lemma unpack_pack (n : Z) (b3 b2 b1 b0 : byte) :
  struct_pack_I n = Ok [b3; b2; b1; b0] -> unpack_I b3 b2 b1 b0 = n.
Proof.
  unfold struct_pack_I.
  destruct ((0 <=? n) && (n <? 2 ^ 32)) eqn:E; [|discriminate].
  apply andb_prop in E. destruct E as [H0 H1].
  apply Z.leb_le in H0. apply Z.ltb_lt in H1.
  intros [= <- <- <- <-]. unfold unpack_I.
  rewrite !Z_of_byte_of_Z, !Z.shiftr_div_pow2 by lia.
  change (2 ^ 32) with 4294967296 in H1.
  change (2 ^ 24) with 16777216. change (2 ^ 16) with 65536.
  change (2 ^ 8) with 256.
  pose proof (Z.div_mod n 16777216 ltac:(lia)).
  pose proof (Z.div_mod n 65536 ltac:(lia)).
  pose proof (Z.div_mod n 256 ltac:(lia)).
  pose proof (Z.mod_pos_bound n 16777216 ltac:(lia)).
  pose proof (Z.mod_pos_bound n 65536 ltac:(lia)).
  pose proof (Z.mod_pos_bound n 256 ltac:(lia)).
  assert (n / 16777216 < 256) by (apply Z.div_lt_upper_bound; lia).
  assert (0 <= n / 16777216) by (apply Z.div_pos; lia).
  rewrite (Z.mod_small (n / 16777216)) by lia.
  assert (E16 : (n / 65536) mod 256 = n / 65536 - 256 * (n / 16777216)).
  { replace 16777216 with (65536 * 256) by lia.
    rewrite <- Z.div_div by lia.
    pose proof (Z.div_mod (n / 65536) 256 ltac:(lia)). lia. }
  assert (E8 : (n / 256) mod 256 = n / 256 - 256 * (n / 65536)).
  { replace 65536 with (256 * 256) by lia.
    rewrite <- Z.div_div by lia.
    pose proof (Z.div_mod (n / 256) 256 ltac:(lia)). lia. }
  rewrite E16, E8. lia.
Qed.

Lemma struct_pack_I_Ok_iff (n : Z) :
  (exists h, struct_pack_I n = Ok h) <-> 0 <= n < 2 ^ 32.
Proof.
  unfold struct_pack_I. split.
  - intros [h H]. destruct ((0 <=? n) && (n <? 2 ^ 32)) eqn:E; [|discriminate].
    apply andb_prop in E. destruct E as [H0 H1].
    apply Z.leb_le in H0. apply Z.ltb_lt in H1. lia.
  - intros [H0 H1]. apply Z.leb_le in H0. apply Z.ltb_lt in H1.
    rewrite H0, H1. simpl. eexists; reflexivity.
Qed.

Lemma frame_fits (p : list byte) :
  fits p -> exists b3 b2 b1 b0,
    frame p = b3 :: b2 :: b1 :: b0 :: p /\ unpack_I b3 b2 b1 b0 = len p.
Proof.
  intros Hp. unfold frame.
  destruct (struct_pack_I (len p)) as [h|e] eqn:E.
  - pose proof E as E'. unfold struct_pack_I in E'.
    destruct (_ && _) in E'; [|discriminate].
    injection E' as <-.
    do 4 eexists. split; [reflexivity|].
    apply unpack_pack. exact E.
  - exfalso. unfold fits, len in Hp.
    destruct (proj2 (struct_pack_I_Ok_iff (len p))) as [h Hh];
      [unfold len; lia|congruence].
Qed.

Lemma parse_frames_frame (fuel : nat) (p rest : list byte) :
  fits p ->
  parse_frames (S fuel) (frame p ++ rest)
  = option_map (cons p) (parse_frames fuel rest).
Proof.
  intros Hp. destruct (frame_fits p Hp) as (b3 & b2 & b1 & b0 & -> & Hn).
  cbn [app parse_frames]. rewrite Hn. unfold len.
  rewrite Nat2Z.id.
  assert (Hle : (length p <=? length (p ++ rest))%nat = true).
  { apply Nat.leb_le. rewrite length_app. lia. }
  rewrite Hle, firstn_app, Nat.sub_diag, firstn_all. simpl.
  rewrite app_nil_r, skipn_app, Nat.sub_diag, skipn_all. reflexivity.
Qed.


Lemma frame_length (p : list byte) :
  fits p -> length (frame p) = (4 + length p)%nat.
Proof.
  intros Hp. destruct (frame_fits p Hp) as (b3 & b2 & b1 & b0 & -> & _).
  reflexivity.
Qed.

Lemma parse_frames_stream (ps : list (list byte)) (fuel : nat) :
  Forall fits ps -> (length ps < fuel)%nat ->
  parse_frames fuel (concat (map frame ps) ++ end_marker) = Some (ps ++ [[]]).
Proof.
  intros Hps. revert fuel. induction Hps as [|p ps Hp _ IH]; intros fuel Hf.
  - destruct fuel as [|fuel]; [inversion Hf|]. destruct fuel; reflexivity.
  - destruct fuel as [|fuel]; [inversion Hf|].
    cbn [map concat]. rewrite <- app_assoc, parse_frames_frame by exact Hp.
    rewrite IH by (simpl in Hf; lia). reflexivity.
Qed.

Lemma read_frames_stream (ps : list (list byte)) :
  Forall fits ps ->
  read_frames (concat (map frame ps) ++ end_marker) = Some (ps ++ [[]]).
Proof.
  intros Hps. unfold read_frames. apply parse_frames_stream; [exact Hps|].
  rewrite length_app. simpl.
  assert (length ps <= length (concat (map frame ps)))%nat; [|lia].
  induction Hps as [|p ps Hp _ IH]; simpl; [lia|].
  rewrite length_app, frame_length by exact Hp. lia.
Qed.

(** ** The PCM encoder *)

Lemma f32_of_Z_one : f32_of_Z 1 = S754_finite false 8388608 (-23).
Proof. reflexivity. Qed.

Lemma f32_of_Z_minus_one : f32_of_Z (-1) = S754_finite true 8388608 (-23).
Proof. reflexivity. Qed.

(** Clipping to a symmetric pair of finite bounds, as comparisons. *)
Lemma np_clip_finite (M : positive) (E : Z) (x : float32) :
  np_clip x (S754_finite true M E) (S754_finite false M E)
  = if f32_lt (S754_finite false M E) x then S754_finite false M E
    else if f32_lt x (S754_finite true M E) then S754_finite true M E
    else x.
Proof.
  unfold np_clip, np_maximum, np_minimum, f32_lt, SFltb.
  destruct x as [s|s| |s m e];
    [destruct s; reflexivity|destruct s; reflexivity|reflexivity|].
  assert (Hm : Pos.compare_cont Eq M m = CompOpp (Pos.compare_cont Eq m M))
    by exact (Pos.compare_antisym m M).
  destruct s; cbn [SFcompare f32_isnan];
    rewrite (Z.compare_antisym e E), Hm;
    (destruct (Z.compare_spec e E) as [->| |]; cbn [CompOpp];
     [|reflexivity|reflexivity]);
    (destruct (Pos.compare_cont Eq m M) eqn:Em;
     [apply Pos.compare_eq in Em; subst m| |];
     cbn [CompOpp SFcompare f32_isnan];
     rewrite ?Z.compare_refl, ?Pos.compare_cont_refl, ?Em; reflexivity).
Qed.

(** [np.clip] to [-1, 1] is the clamp of the specification. *)
Lemma np_clip_clamp_unit (x : float32) :
  np_clip x (f32_of_Z (-1)) (f32_of_Z 1) = clamp_unit x.
Proof.
  unfold clamp_unit. rewrite f32_of_Z_one, f32_of_Z_minus_one.
  apply np_clip_finite.
Qed.

Lemma pcm_flat_map (audio : list float32) :
  float32_to_int16_pcm audio = flat_map encode_sample audio.
Proof.
  unfold float32_to_int16_pcm, tobytes, encode_sample. cbn zeta.
  induction audio as [|x audio IH]; [reflexivity|].
  cbn [map flat_map]. rewrite IH, np_clip_clamp_unit. reflexivity.
Qed.

Lemma pcm_length (audio : list float32) :
  length (float32_to_int16_pcm audio) = (2 * length audio)%nat.
Proof.
  rewrite pcm_flat_map.
  induction audio as [|x audio IH]; [reflexivity|].
  cbn [flat_map]. rewrite length_app, IH.
  change (length (encode_sample x)) with 2%nat. cbn [length]. lia.
Qed.

Lemma pcm_nil_iff (audio : list float32) :
  float32_to_int16_pcm audio = [] <-> audio = [].
Proof.
  split; [|intros ->; reflexivity].
  intros H. apply (f_equal (@length byte)) in H. rewrite pcm_length in H.
  destruct audio; [reflexivity|discriminate].
Qed.

Lemma pcm_above_one (x : float32) :
  f32_lt (f32_of_Z 1) x = true ->
  float32_to_int16_pcm [x] = float32_to_int16_pcm [f32_of_Z 1].
Proof.
  intros H. rewrite !pcm_flat_map. cbn [flat_map]. unfold encode_sample, clamp_unit.
  rewrite H. reflexivity.
Qed.

Lemma pcm_below_minus_one (x : float32) :
  f32_lt x (f32_of_Z (-1)) = true ->
  float32_to_int16_pcm [x] = float32_to_int16_pcm [f32_of_Z (-1)].
Proof.
  intros H. rewrite !pcm_flat_map. cbn [flat_map]. unfold encode_sample, clamp_unit.
  rewrite H.
  destruct (f32_lt (f32_of_Z 1) x) eqn:E; [|reflexivity].
  exfalso. unfold f32_lt, SFltb in *.
  rewrite f32_of_Z_one in E. rewrite f32_of_Z_minus_one in H.
  destruct x as [s|s| |s m e];
    [destruct s; discriminate|destruct s; discriminate|discriminate|].
  destruct s; cbn [SFcompare] in *; discriminate.
Qed.

(** ** Rounding of the scaled sample *)

Lemma digits2_pos_size (m : positive) : digits2_pos m = Pos.size m.
Proof. induction m as [m IH|m IH|]; cbn; rewrite ?IH; reflexivity. Qed.

Lemma Zdigits2_bound (m k : Z) : 0 <= m < 2 ^ k -> 0 <= k -> Zdigits2 m <= k.
Proof.
  intros [H0 H1] Hk. destruct m as [|p|p]; cbn [Zdigits2];
    [exact Hk| |pose proof (Pos2Z.neg_is_neg p); lia].
  rewrite digits2_pos_size.
  pose proof (Pos.size_le p) as Hs.
  apply Pos2Z.pos_le_pos in Hs. rewrite Pos2Z.inj_pow in Hs.
  change (Z.pos p~0) with (2 * Z.pos p) in Hs.
  destruct (Z.le_gt_cases (Zpos (Pos.size p)) k) as [|Hgt]; [assumption|exfalso].
  assert (2 ^ (k + 1) <= 2 ^ Zpos (Pos.size p)) by (apply Z.pow_le_mono_r; lia).
  rewrite Z.pow_add_r, Z.pow_1_r in H by lia. lia.
Qed.

Lemma shr_1_spec (mrs : shr_record) :
  0 <= shr_m mrs -> shr_m (shr_1 mrs) = shr_m mrs / 2.
Proof.
  destruct mrs as [m r s]. cbn [shr_m]. intros H.
  destruct m as [|[p|p|]|p]; cbn [shr_1 shr_m]; try reflexivity; try lia.
  - change (Z.pos p~1) with (2 * Z.pos p + 1). apply Z.div_unique with 1; lia.
  - change (Z.pos p~0) with (2 * Z.pos p). apply Z.div_unique with 0; lia.
Qed.

Lemma iter_shr_1_spec (p : positive) :
  forall mrs, 0 <= shr_m mrs ->
    shr_m (iter_pos shr_1 p mrs) = shr_m mrs / 2 ^ Zpos p.
Proof.
  assert (Hpos : forall q, 0 < 2 ^ Zpos q) by (intros; apply Z.pow_pos_nonneg; lia).
  induction p as [p IH|p IH|]; intros mrs H; cbn [iter_pos].
  - assert (H1 : 0 <= shr_m (shr_1 mrs))
      by (rewrite shr_1_spec by exact H; apply Z.div_pos; lia).
    assert (H2 : 0 <= shr_m (iter_pos shr_1 p (shr_1 mrs)))
      by (rewrite IH by exact H1; apply Z.div_pos; [exact H1|apply Hpos]).
    rewrite IH, IH, shr_1_spec by assumption.
    pose proof (Hpos p).
    rewrite !Z.div_div by lia.
    change (Z.pos p~1) with (2 * Z.pos p + 1).
    replace (2 * Zpos p + 1) with (1 + Zpos p + Zpos p) by lia.
    rewrite !Z.pow_add_r, Z.pow_1_r by lia. rewrite Z.mul_assoc. reflexivity.
  - assert (H2 : 0 <= shr_m (iter_pos shr_1 p mrs))
      by (rewrite IH by exact H; apply Z.div_pos; [exact H|apply Hpos]).
    rewrite IH, IH by assumption.
    pose proof (Hpos p).
    rewrite Z.div_div by lia.
    change (Z.pos p~0) with (2 * Z.pos p).
    replace (2 * Zpos p) with (Zpos p + Zpos p) by lia.
    rewrite Z.pow_add_r by lia. reflexivity.
  - rewrite shr_1_spec by exact H. reflexivity.
Qed.

Lemma shr_spec (m : Z) (r s : bool) (e n : Z) :
  0 <= m ->
  shr_m (fst (shr (Build_shr_record m r s) e n)) = m / 2 ^ Z.max n 0 /\
  snd (shr (Build_shr_record m r s) e n) = e + Z.max n 0.
Proof.
  intros H. destruct n as [|p|p]; cbn [shr fst snd shr_m].
  - cbn. rewrite Z.div_1_r. lia.
  - rewrite iter_shr_1_spec by exact H. cbn [shr_m].
    rewrite Z.max_l by lia. split; reflexivity.
  - rewrite Z.max_r by lia. cbn. rewrite Z.div_1_r. lia.
Qed.

Lemma round_nearest_even_bounds (m : Z) (l : location) :
  m <= round_nearest_even m l <= m + 1.
Proof.
  destruct l as [|[| |]]; cbn [round_nearest_even]; try lia.
  destruct (Z.even m); lia.
Qed.

Lemma fexp_24_128 (z : Z) : fexp 24 128 z = Z.max (z - 24) (-149).
Proof. reflexivity. Qed.

(** One shift of [binary_round_aux] on a mantissa below [2 ^ (15 - e)]:
    the exponent stays at most [-9]. *)
Lemma shr_fexp_bound (m e : Z) (l : location) :
  0 <= m < 2 ^ (15 - e) -> e <= -9 ->
  e <= snd (shr_fexp 24 128 m e l) <= -9 /\
  shr_m (fst (shr_fexp 24 128 m e l))
  = m / 2 ^ (snd (shr_fexp 24 128 m e l) - e).
Proof.
  intros Hm He. unfold shr_fexp. rewrite fexp_24_128.
  assert (Hd : Zdigits2 m <= 15 - e) by (apply Zdigits2_bound; lia).
  set (n := Z.max (Zdigits2 m + e - 24) (-149) - e).
  assert (Hn : Z.max n 0 <= -9 - e) by lia.
  destruct (shr_record_of_loc m l) as [m' r s] eqn:E.
  assert (m' = m) by (destruct l as [|[| |]]; cbn in E; congruence). subst m'.
  destruct (shr_spec m r s e n ltac:(lia)) as [H1 H2].
  rewrite H1, H2. replace (e + Z.max n 0 - e) with (Z.max n 0) by lia.
  split; [lia|reflexivity].
Qed.

Lemma binary_round_aux_bound (sx : bool) (mx ex : Z) :
  0 <= mx < 32767 * 2 ^ (- ex) -> ex <= -9 ->
  exists n,
    f32_trunc (binary_round_aux 24 128 sx mx ex loc_Exact) = Some n /\
    -32767 <= n <= 32767.
Proof.
  intros Hm He. unfold binary_round_aux.
  assert (P : forall e, 0 < 2 ^ (- e) -> 32767 * 2 ^ (- e) < 2 ^ (15 - e)).
  { intros e Hp. replace (15 - e) with (15 + - e) by lia.
    destruct (Z.le_gt_cases 0 (- e)).
    - rewrite Z.pow_add_r by lia. change (2 ^ 15) with 32768. lia.
    - rewrite (Z.pow_neg_r 2 (- e)) in Hp by lia. lia. }
  assert (Q : forall e, e <= -9 -> 0 < 2 ^ (- e))
    by (intros; apply Z.pow_pos_nonneg; lia).
  destruct (shr_fexp_bound mx ex loc_Exact) as [[L1 U1] M1];
    [pose proof (P ex (Q ex He)); lia|exact He|].
  destruct (shr_fexp 24 128 mx ex loc_Exact) as [mrs1 e1]. cbn [fst snd] in *.
  pose proof (round_nearest_even_bounds (shr_m mrs1) (loc_of_shr_record mrs1))
    as R.
  set (m1 := round_nearest_even (shr_m mrs1) (loc_of_shr_record mrs1)) in *.
  assert (B1 : 0 <= shr_m mrs1 < 32767 * 2 ^ (- e1)).
  { rewrite M1. split.
    - apply Z.div_pos; [lia|apply Z.pow_pos_nonneg; lia].
    - apply Z.div_lt_upper_bound; [apply Z.pow_pos_nonneg; lia|].
      replace (2 ^ (e1 - ex) * (32767 * 2 ^ (- e1)))
        with (32767 * (2 ^ (e1 - ex) * 2 ^ (- e1))) by lia.
      rewrite <- Z.pow_add_r by lia.
      replace (e1 - ex + - e1) with (- ex) by lia. lia. }
  destruct (shr_fexp_bound m1 e1 loc_Exact) as [[L2 U2] M2];
    [pose proof (P e1 (Q e1 U1)); lia|exact U1|].
  destruct (shr_fexp 24 128 m1 e1 loc_Exact) as [mrs2 e2]. cbn [fst snd] in *.
  assert (B2 : 0 <= shr_m mrs2 <= 32767 * 2 ^ (- e2)).
  { rewrite M2. split.
    - apply Z.div_pos; [lia|apply Z.pow_pos_nonneg; lia].
    - apply Z.div_le_upper_bound; [apply Z.pow_pos_nonneg; lia|].
      replace (2 ^ (e2 - e1) * (32767 * 2 ^ (- e2)))
        with (32767 * (2 ^ (e2 - e1) * 2 ^ (- e2))) by lia.
      rewrite <- Z.pow_add_r by lia.
      replace (e2 - e1 + - e2) with (- e1) by lia. lia. }
  destruct (shr_m mrs2) as [|p|p].
  - exists 0. split; [reflexivity|lia].
  - replace (e2 <=? 128 - 24) with true by (symmetry; apply Z.leb_le; lia).
    cbn [f32_trunc].
    replace (0 <=? e2) with false by (symmetry; apply Z.leb_gt; lia).
    assert (0 <= Z.pos p / 2 ^ (- e2) <= 32767).
    { split.
      - apply Z.div_pos; [lia|apply Q; lia].
      - apply Z.div_le_upper_bound; [apply Q; lia|lia]. }
    eexists. split; [reflexivity|]. destruct sx; cbn [cond_Zopp]; lia.
  - pose proof (Pos2Z.neg_is_neg p). lia.
Qed.

Lemma f32_of_Z_32767 : f32_of_Z 32767 = S754_finite false 16776704 (-9).
Proof. reflexivity. Qed.

(** A sample of magnitude below one, scaled: the integer part is within
    the int16 range. *)
Lemma scaled_bound (s : bool) (m : positive) (e : Z) :
  Z.pos m < 2 ^ 24 -> e <= -24 ->
  exists n,
    f32_trunc (f32_mul (S754_finite s m e) (f32_of_Z 32767)) = Some n /\
    -32767 <= n <= 32767.
Proof.
  intros Hm He. rewrite f32_of_Z_32767. unfold f32_mul. cbn [SFmul].
  apply binary_round_aux_bound; [|lia].
  rewrite Pos2Z.inj_mul. split; [lia|].
  replace (- (e + -9)) with (9 + (- e - 24) + 24) by lia.
  rewrite !Z.pow_add_r by lia.
  assert (0 < 2 ^ (- e - 24)) by (apply Z.pow_pos_nonneg; lia).
  change (2 ^ 9) with 512. change (2 ^ 24) with 16777216 in *. nia.
Qed.

Lemma within_unit_exponent (s : bool) (m : positive) (e : Z) :
  f32_lt (S754_finite false 8388608 (-23)) (S754_finite s m e) = false ->
  f32_lt (S754_finite s m e) (S754_finite true 8388608 (-23)) = false ->
  e <= -24 \/ (e = -23 /\ Z.pos m <= 8388608).
Proof.
  unfold f32_lt, SFltb. destruct s; cbn [SFcompare]; intros H1 H2.
  - destruct (Z.compare_spec e (-23)) as [->| |];
      [|left; lia|discriminate H2].
    right. split; [reflexivity|].
    destruct (Pos.compare_cont Eq m 8388608) eqn:E.
    + apply Pos.compare_eq in E. rewrite E. apply Z.le_refl.
    + apply Pos2Z.pos_le_pos, Pos.lt_le_incl. exact E.
    + discriminate H2.
  - destruct (Z.compare_spec (-23) e) as [E0| |];
      [|discriminate H1|left; lia].
    right. split; [symmetry; exact E0|].
    destruct (Pos.compare_cont Eq 8388608 m) eqn:E.
    + apply Pos.compare_eq in E. rewrite <- E. apply Z.le_refl.
    + discriminate H1.
    + apply Pos2Z.pos_le_pos, Pos.lt_le_incl, Pos.gt_lt. exact E.
Qed.

Lemma valid_mantissa (s : bool) (m : positive) (e : Z) :
  f32_valid (S754_finite s m e) = true ->
  Z.pos m < 16777216 /\ (e = -23 -> 8388608 <= Z.pos m).
Proof.
  unfold f32_valid, valid_binary, bounded, canonical_mantissa.
  rewrite fexp_24_128. intros Hv.
  apply andb_prop in Hv. destruct Hv as [Hc _].
  apply Z.eqb_eq in Hc. rewrite digits2_pos_size in Hc.
  pose proof (Pos.size_gt m) as Hg. apply Pos2Z.pos_lt_pos in Hg.
  rewrite Pos2Z.inj_pow in Hg.
  pose proof (Pos.size_le m) as Hl. apply Pos2Z.pos_le_pos in Hl.
  rewrite Pos2Z.inj_pow in Hl. change (Z.pos m~0) with (2 * Z.pos m) in Hl.
  set (d := Z.pos (Pos.size m)) in *.
  assert (Hd : 0 < d <= 24) by (unfold d; lia).
  split.
  - assert (2 ^ d <= 2 ^ 24) by (apply Z.pow_le_mono_r; lia).
    change (2 ^ 24) with 16777216 in H. lia.
  - intros He. assert (d = 24) by lia.
    replace d with 24 in Hl by lia. change (2 ^ 24) with 16777216 in Hl. lia.
Qed.

(** A valid float that is neither above 1 nor below -1 is 1, -1, or has a
    magnitude below one. *)
Lemma valid_within_unit (s : bool) (m : positive) (e : Z) :
  f32_valid (S754_finite s m e) = true ->
  f32_lt (f32_of_Z 1) (S754_finite s m e) = false ->
  f32_lt (S754_finite s m e) (f32_of_Z (-1)) = false ->
  (m = 8388608%positive /\ e = -23) \/ (Z.pos m < 2 ^ 24 /\ e <= -24).
Proof.
  rewrite f32_of_Z_one, f32_of_Z_minus_one. intros Hv H1 H2.
  destruct (valid_mantissa s m e Hv) as [Hm Hx].
  destruct (within_unit_exponent s m e H1 H2) as [He|[He Hle]].
  - right. split; [exact Hm|exact He].
  - left. split; [|exact He]. specialize (Hx He).
    apply Pos2Z.inj. apply Z.le_antisymm; assumption.
Qed.

(** The scaled value of every valid sample that is a number has an integer
    part within [-32767, 32767]: the conversion to int16 is exact. *)
Lemma encode_in_range (x : float32) :
  f32_valid x = true -> f32_isnan x = false ->
  exists n,
    f32_trunc (f32_mul (clamp_unit x) (f32_of_Z 32767)) = Some n /\
    -32767 <= n <= 32767 /\
    encode_sample x = int16_le n.
Proof.
  intros Hv Hn.
  assert (H : exists n,
             f32_trunc (f32_mul (clamp_unit x) (f32_of_Z 32767)) = Some n /\
             -32767 <= n <= 32767).
  { unfold clamp_unit.
    destruct (f32_lt (f32_of_Z 1) x) eqn:H1;
      [exists 32767; split; [reflexivity|lia]|].
    destruct (f32_lt x (f32_of_Z (-1))) eqn:H2;
      [exists (-32767); split; [reflexivity|lia]|].
    destruct x as [s|s| |s m e].
    - exists 0. split; [destruct s; reflexivity|lia].
    - destruct s; discriminate.
    - discriminate.
    - destruct (valid_within_unit s m e Hv H1 H2) as [[-> ->]|[Hm He]].
      + destruct s; [exists (-32767)|exists 32767]; (split; [reflexivity|lia]).
      + apply scaled_bound; assumption. }
  destruct H as (n & Ht & Hr). exists n. split; [exact Ht|]. split; [exact Hr|].
  unfold encode_sample, astype_int16. rewrite Ht. f_equal.
  unfold wrap16. rewrite Z.mod_small by lia. lia.
Qed.

Lemma clamp_unit_within (x : float32) :
  f32_lt (f32_of_Z 1) (clamp_unit x) = false /\
  f32_lt (clamp_unit x) (f32_of_Z (-1)) = false.
Proof.
  unfold clamp_unit.
  destruct (f32_lt (f32_of_Z 1) x) eqn:H1; [split; reflexivity|].
  destruct (f32_lt x (f32_of_Z (-1))) eqn:H2; [split; reflexivity|].
  split; assumption.
Qed.

(** C6: [float32_to_int16_pcm] is a total function of its samples (so it
    is deterministic and raises nothing).  It is the encoder of the
    specification sample by sample: clamp to [-1, 1], multiply by 32767 in
    float32, take the integer part toward zero, write two bytes low byte
    first.  No clamped sample lies outside [-1, 1]; for every valid sample
    that is a number the integer lies in [-32767, 32767], so the int16
    conversion is exact.  Every sample above 1 encodes as 1 does and every
    sample below -1 as -1 does, 2.0 and -5.0 among them, and 0.0 encodes as
    the zero int16. *)
Theorem C6_pcm_encoder :
  (forall audio,
      float32_to_int16_pcm audio = flat_map encode_sample audio /\
      length (float32_to_int16_pcm audio) = (2 * length audio)%nat) /\
  (forall x,
      f32_lt (f32_of_Z 1) (clamp_unit x) = false /\
      f32_lt (clamp_unit x) (f32_of_Z (-1)) = false) /\
  (forall x,
      f32_valid x = true -> f32_isnan x = false ->
      exists n,
        f32_trunc (f32_mul (clamp_unit x) (f32_of_Z 32767)) = Some n /\
        -32767 <= n <= 32767 /\
        float32_to_int16_pcm [x] = int16_le n) /\
  (forall x,
      f32_lt (f32_of_Z 1) x = true ->
      float32_to_int16_pcm [x] = float32_to_int16_pcm [f32_of_Z 1]) /\
  (forall x,
      f32_lt x (f32_of_Z (-1)) = true ->
      float32_to_int16_pcm [x] = float32_to_int16_pcm [f32_of_Z (-1)]) /\
  float32_to_int16_pcm [f32_of_Z 2] = float32_to_int16_pcm [f32_of_Z 1] /\
  float32_to_int16_pcm [f32_of_Z (-5)] = float32_to_int16_pcm [f32_of_Z (-1)] /\
  float32_to_int16_pcm [f32_of_Z 0] = [x00; x00].
Proof.
  split; [intros audio; split; [apply pcm_flat_map|apply pcm_length]|].
  split; [exact clamp_unit_within|].
  split.
  { intros x Hv Hn. destruct (encode_in_range x Hv Hn) as (n & Ht & Hr & He).
    exists n. split; [exact Ht|]. split; [exact Hr|].
    rewrite pcm_flat_map. cbn [flat_map]. rewrite app_nil_r. exact He. }
  split; [exact pcm_above_one|]. split; [exact pcm_below_minus_one|].
  split; [apply pcm_above_one; reflexivity|].
  split; [apply pcm_below_minus_one; reflexivity|].
  reflexivity.
Qed.


Section Properties.

Variable json_loads : pystr -> loads_result.
Variable py_str : json -> pystr.
Variable load_model : pystr -> result Model.

(** ** What a step leaves alone *)

Lemma steady_refl (w : World) : steady json_loads w w.
Proof. repeat split. Qed.

Lemma steady_trans (w1 w2 w3 : World) :
  steady json_loads w1 w2 -> steady json_loads w2 w3 -> steady json_loads w1 w3.
Proof.
  unfold steady. intros (A1 & B1 & C1 & D1) (A2 & B2 & C2 & D2).
  repeat split; congruence.
Qed.

Lemma log_not_READY (msg : pystr) : py "[tts-server] " ++ msg ++ newline <> READY.
Proof. discriminate. Qed.

Lemma ready_count_log (msg : pystr) (w : World) :
  ready_count (log msg w) = ready_count w.
Proof.
  unfold ready_count, log, stderr_write. simpl.
  rewrite count_occ_app. cbn [count_occ].
  match goal with
  | |- context [list_eq_dec ?d ?a ?b] => destruct (list_eq_dec d a b) as [E|_]
  end; [exfalso; exact (log_not_READY msg E)|].
  cbn [Nat.add]. apply Nat.add_0_r.
Qed.

Lemma steady_log (msg : pystr) (w : World) : steady json_loads w (log msg w).
Proof.
  unfold steady. rewrite ready_count_log. repeat split.
Qed.

Lemma steady_with_interrupted (b : bool) (w : World) :
  steady json_loads w (with_interrupted b w).
Proof. repeat split. Qed.

Lemma steady_with_sched (s : list nat) (w : World) : steady json_loads w (with_sched s w).
Proof. repeat split. Qed.

Lemma steady_stdin_reader_step (w : World) :
  steady json_loads w (stdin_reader_step json_loads w).
Proof.
  destruct w as [sin alive flag q out err cl sch].
  unfold steady, pending, stdin_reader_step. world_simpl.
  destruct alive; [|repeat split].
  destruct sin as [|line rest]; [repeat split|].
  world_simpl. cbn [arrivals].
  destruct (strip line) as [|c l]; [repeat split|].
  destruct (json_loads (c :: l)) as [v|msg|e].
  - destruct v as [| | | | | |pairs];
      try (world_simpl; rewrite ?app_nil_r; repeat split; fail).
    destruct (json_eq_str _ _); world_simpl; [repeat split|].
    rewrite <- app_assoc. repeat split.
  - rewrite ready_count_log. unfold log. world_simpl. repeat split.
  - world_simpl. rewrite app_nil_r. repeat split.
Qed.

Lemma steady_stdin_reader (n : nat) (w : World) :
  steady json_loads w (stdin_reader json_loads n w).
Proof.
  revert w. induction n as [|n IH]; intros w; simpl; [apply steady_refl|].
  eapply steady_trans; [apply steady_stdin_reader_step|apply IH].
Qed.

Lemma steady_preempt (w : World) : steady json_loads w (preempt json_loads w).
Proof.
  unfold preempt. destruct (sched w) as [|n rest]; [apply steady_refl|].
  eapply steady_trans; [apply steady_with_sched|apply steady_stdin_reader].
Qed.

(** ** The interrupt flag under reader turns *)

Lemma reader_step_flag_stays (w : World) :
  interrupted w = true -> interrupted (stdin_reader_step json_loads w) = true.
Proof.
  intros H. unfold stdin_reader_step.
  destruct (reader_alive w); [|exact H].
  destruct (stdin w) as [|line rest]; [exact H|].
  destruct (strip line); [exact H|].
  destruct (json_loads _) as [v|msg|e]; try exact H.
  destruct v; try exact H. destruct (json_eq_str _ _); [reflexivity|exact H].
Qed.

Lemma reader_step_no_interrupt (w : World) :
  no_interrupt_ahead json_loads w ->
  interrupted (stdin_reader_step json_loads w) = interrupted w /\
  no_interrupt_ahead json_loads (stdin_reader_step json_loads w).
Proof.
  destruct w as [sin alive flag q out err cl sch].
  unfold no_interrupt_ahead, stdin_reader_step. world_simpl. intros H.
  destruct alive; [|split; [reflexivity|exact H]].
  destruct sin as [|line rest]; [split; [reflexivity|exact H]|].
  inversion H as [|? ? Hl Hr]; subst.
  unfold is_interrupt_line in Hl. world_simpl.
  destruct (strip line); [split; [reflexivity|exact Hr]|].
  destruct (json_loads _) as [v|msg|e]; try (split; [reflexivity|exact Hr]).
  destruct v; try (split; [reflexivity|exact Hr]).
  rewrite Hl. split; [reflexivity|exact Hr].
Qed.

Lemma stdin_reader_no_interrupt (n : nat) (w : World) :
  no_interrupt_ahead json_loads w ->
  interrupted (stdin_reader json_loads n w) = interrupted w /\
  no_interrupt_ahead json_loads (stdin_reader json_loads n w).
Proof.
  revert w. induction n as [|n IH]; intros w H; simpl; [split; [reflexivity|exact H]|].
  destruct (reader_step_no_interrupt w H) as [E H'].
  destruct (IH _ H') as [E' H'']. split; [congruence|exact H''].
Qed.

Lemma preempt_no_interrupt (w : World) :
  no_interrupt_ahead json_loads w ->
  interrupted (preempt json_loads w) = interrupted w /\
  no_interrupt_ahead json_loads (preempt json_loads w).
Proof.
  intros H. unfold preempt. destruct (sched w) as [|n rest]; [split; [reflexivity|exact H]|].
  apply (stdin_reader_no_interrupt n (with_sched rest w)). exact H.
Qed.

(** ** The loop of [handle_generate] *)

Lemma writable_fits (results : list pull) : Forall fits (writable results).
Proof.
  induction results as [|[audio|e] rest IH]; simpl; try constructor.
  destruct (struct_pack_I _) as [h|e] eqn:E; constructor; [|exact IH].
  unfold fits. apply struct_pack_I_Ok_iff. eauto.
Qed.

Lemma write_audio_chunk_Ok (pcm : list byte) (w w' : World) :
  write_audio_chunk pcm w = Ok w' ->
  w' = stdout_write (frame pcm) w /\ fits pcm.
Proof.
  unfold write_audio_chunk, frame.
  destruct (struct_pack_I (len pcm)) as [h|e] eqn:E; [|discriminate].
  intros [= <-]. split.
  - unfold stdout_write. simpl. rewrite <- app_assoc. reflexivity.
  - unfold fits. apply struct_pack_I_Ok_iff. eauto.
Qed.

Lemma write_audio_chunk_Raised (pcm : list byte) (w : World) (e : exn) :
  write_audio_chunk pcm w = Raised e -> exists e', struct_pack_I (len pcm) = Raised e'.
Proof.
  unfold write_audio_chunk. destruct (struct_pack_I _); [discriminate|eauto].
Qed.


(** The loop writes frames for the first [k] writable chunks, for some [k],
    and nothing else. *)
Lemma stream_loop_spec (results : list pull) (w : World) :
  exists k,
    (k <= length (writable results))%nat /\
    stdout (stream_loop json_loads results w)
    = stdout w ++ concat (map frame (firstn k (writable results))) /\
    calls (stream_loop json_loads results w) = calls w /\
    pending json_loads (stream_loop json_loads results w) = pending json_loads w /\
    ready_count (stream_loop json_loads results w) = ready_count w.
Proof.
  revert w. induction results as [|[audio|e] rest IH]; intros w; cbn [stream_loop].
  - exists 0%nat. simpl. rewrite app_nil_r. repeat split. lia.
  - destruct (steady_preempt w) as (So & Sc & Sp & Sr).
    set (w1 := preempt json_loads w) in *.
    destruct (interrupted w1).
    { exists 0%nat. simpl. rewrite app_nil_r. repeat split; (lia || assumption). }
    destruct (write_audio_chunk _ w1) as [w2|e] eqn:E.
    + apply write_audio_chunk_Ok in E. destruct E as [-> Hfit].
      destruct (IH (stdout_write (frame (float32_to_int16_pcm audio)) w1))
        as (k & Hk & Ho & Hc & Hp & Hr).
      exists (S k). cbn [writable].
      destruct (struct_pack_I_Ok_iff (len (float32_to_int16_pcm audio))) as [_ Hex].
      destruct Hex as [h Hh]; [unfold fits, len in *; lia|]. rewrite Hh.
      cbn [firstn map concat length]. rewrite Ho, Hc, Hp, Hr.
      unfold stdout_write; cbn. rewrite So, <- app_assoc.
      repeat split; (lia || assumption).
    + apply write_audio_chunk_Raised in E. destruct E as [e' E].
      exists 0%nat. cbn [writable]. rewrite E. cbn [firstn map concat length].
      rewrite app_nil_r.
      destruct (steady_log (py "ERROR: Generation failed: " ++ e) w1) as (A & B & C & D).
      repeat split; try lia; congruence.
  - exists 0%nat. cbn [writable firstn map concat length]. rewrite app_nil_r.
    destruct (steady_log (py "ERROR: Generation failed: " ++ e) w) as (A & B & C & D).
    repeat split; try lia; congruence.
Qed.

(** With the flag clear and no interrupt line left to read, the loop writes
    every writable chunk. *)
Lemma stream_loop_uninterrupted (results : list pull) (w : World) :
  interrupted w = false -> no_interrupt_ahead json_loads w ->
  stdout (stream_loop json_loads results w)
  = stdout w ++ concat (map frame (writable results)).
Proof.
  revert w. induction results as [|[audio|e] rest IH]; intros w Hf Hn; cbn [stream_loop].
  - simpl. rewrite app_nil_r. reflexivity.
  - destruct (steady_preempt w) as (So & _).
    destruct (preempt_no_interrupt w Hn) as [Ef Hn'].
    set (w1 := preempt json_loads w) in *.
    rewrite Ef, Hf.
    destruct (write_audio_chunk _ w1) as [w2|e] eqn:E.
    + apply write_audio_chunk_Ok in E. destruct E as [-> Hfit].
      rewrite IH; [| cbn; congruence | exact Hn'].
      cbn [writable].
      destruct (struct_pack_I_Ok_iff (len (float32_to_int16_pcm audio))) as [_ Hex].
      destruct Hex as [h Hh]; [unfold fits, len in *; lia|]. rewrite Hh.
      cbn. rewrite So, <- app_assoc. reflexivity.
    + apply write_audio_chunk_Raised in E. destruct E as [e' E].
      cbn [writable]. rewrite E. simpl. rewrite app_nil_r. exact So.
  - simpl. rewrite app_nil_r. reflexivity.
Qed.

Lemma emitted_app (w w' : World) (b : list byte) :
  stdout w' = stdout w ++ b -> emitted w w' = b.
Proof.
  intros H. unfold emitted. rewrite H, skipn_app, Nat.sub_diag, skipn_all.
  reflexivity.
Qed.

Lemma after_chunks_spec (k : nat) :
  forall results w rest wk,
    after_chunks json_loads k results w = Some (rest, wk) ->
    stream_loop json_loads results w = stream_loop json_loads rest wk /\
    length (firstn k (writable results)) = k /\
    stdout wk = stdout w ++ concat (map frame (firstn k (writable results))).
Proof.
  induction k as [|k IH]; intros results w rest wk; cbn [after_chunks].
  - intros [= <- <-]. cbn. rewrite app_nil_r. repeat split.
  - destruct results as [|[audio|e] results]; try discriminate.
    cbn [stream_loop]. destruct (steady_preempt w) as (So & _).
    set (w1 := preempt json_loads w) in *.
    destruct (interrupted w1); [discriminate|].
    destruct (write_audio_chunk _ w1) as [w2|e] eqn:E; [|discriminate].
    intros H. apply IH in H. destruct H as (Hl & Hn & Ho).
    apply write_audio_chunk_Ok in E. destruct E as [-> Hfit].
    cbn [writable].
    destruct (struct_pack_I_Ok_iff (len (float32_to_int16_pcm audio))) as [_ Hex].
    destruct Hex as [h Hh]; [unfold fits, len in *; lia|]. rewrite Hh.
    cbn [firstn map concat length]. rewrite Hn, Ho.
    split; [exact Hl|split; [reflexivity|]].
    unfold stdout_write; cbn. rewrite So, <- app_assoc. reflexivity.
Qed.

(** Once the flag is up at the next check, the loop writes nothing more. *)
Lemma stream_loop_stops (results : list pull) (w : World) :
  interrupted (preempt json_loads w) = true ->
  stdout (stream_loop json_loads results w) = stdout w.
Proof.
  intros H. destruct results as [|[audio|e] rest]; cbn [stream_loop].
  - reflexivity.
  - rewrite H. apply steady_preempt.
  - reflexivity.
Qed.

Lemma stdout_write_end_marker (w : World) :
  stdout (write_end_marker w) = stdout w ++ end_marker.
Proof. reflexivity. Qed.

Lemma steady_write_end_marker (w : World) :
  calls (write_end_marker w) = calls w /\
  pending json_loads (write_end_marker w) = pending json_loads w /\
  ready_count (write_end_marker w) = ready_count w.
Proof. repeat split. Qed.



(** [handle_generate] on a [str]: frames for the first chunks of the
    stream, then the end marker. *)
Lemma handle_generate_spec (model : Model) (text voice : pystr) (w : World) :
  exists w' k,
    handle_generate json_loads model (JString text) voice w = Ok w' /\
    (k <= length (payloads_of model text voice))%nat /\
    stdout w' = stdout w
                ++ concat (map frame (firstn k (payloads_of model text voice)))
                ++ end_marker /\
    calls w' = calls w ++ call_for voice text /\
    pending json_loads w' = pending json_loads w /\
    ready_count w' = ready_count w.
Proof.
  unfold handle_generate, payloads_of, call_for.
  destruct (strip text) as [|c l] eqn:Es.
  - exists (write_end_marker w), 0%nat. cbn [firstn map concat app length].
    rewrite app_nil_r. repeat split. cbn. lia.
  - set (w0 := with_calls (calls w ++ [(text, voice, true)]) w).
    destruct (stream_loop_spec (generate model text voice true) w0)
      as (k & Hk & Ho & Hc & Hp & Hr).
    exists (write_end_marker (stream_loop json_loads (generate model text voice true) w0)), k.
    rewrite stdout_write_end_marker, Ho, <- app_assoc.
    destruct (steady_write_end_marker
                (stream_loop json_loads (generate model text voice true) w0))
      as (A & B & C).
    rewrite A, B, C, Hc, Hp, Hr. repeat split. exact Hk.
Qed.

Lemma handle_generate_not_str (model : Model) (text : json) (voice : pystr)
                              (w : World) :
  (forall s, text <> JString s) ->
  handle_generate json_loads model text voice w
  = Raised (attribute_error text "strip").
Proof.
  intros H. destruct text; try reflexivity. exfalso. eapply H. reflexivity.
Qed.

(** ** Taking commands from the queue *)

Lemma reader_step_stdin (w : World) :
  reader_alive w = true ->
  stdin (stdin_reader_step json_loads w) = tl (stdin w).
Proof.
  destruct w as [sin alive flag q out err cl sch].
  unfold stdin_reader_step. world_simpl. intros ->.
  destruct sin as [|line rest]; [reflexivity|]. world_simpl.
  destruct (strip line); [reflexivity|].
  destruct (json_loads _) as [v|msg|e]; try reflexivity.
  destruct v; try reflexivity. destruct (json_eq_str _ _); reflexivity.
Qed.

Lemma queue_get_spec (fuel : nat) (w : World) :
  stdout (snd (queue_get json_loads fuel w)) = stdout w /\
  calls (snd (queue_get json_loads fuel w)) = calls w /\
  ready_count (snd (queue_get json_loads fuel w)) = ready_count w /\
  match fst (queue_get json_loads fuel w) with
  | Some cmd =>
      pending json_loads w
      = cmd :: pending json_loads (snd (queue_get json_loads fuel w))
  | None =>
      (length (stdin w) <= fuel)%nat ->
      pending json_loads w = []
  end.
Proof.
  revert w. induction fuel as [|fuel IH]; intros w; cbn [queue_get].
  - destruct (command_queue w) as [|cmd q] eqn:Eq; cbn [fst snd].
    + repeat split. intros Hl. unfold pending. rewrite Eq.
      destruct (stdin w); [|simpl in Hl; lia].
      destruct (reader_alive w); reflexivity.
    + repeat split. unfold pending. world_simpl. rewrite Eq. reflexivity.
  - destruct (command_queue w) as [|cmd q] eqn:Eq; cbn [fst snd].
    + destruct (reader_alive w) eqn:Ha; cbn [fst snd].
      * destruct (steady_stdin_reader_step w) as (So & Sc & Sp & Sr).
        destruct (IH (stdin_reader_step json_loads w)) as (Ho & Hc & Hr & Hm).
        rewrite Ho, Hc, Hr, So, Sc, Sr. repeat split.
        destruct (fst (queue_get json_loads fuel (stdin_reader_step json_loads w))).
        -- rewrite <- Sp. exact Hm.
        -- intros Hl. rewrite <- Sp. apply Hm.
           rewrite reader_step_stdin by exact Ha.
           destruct (stdin w); simpl in *; lia.
      * repeat split. intros _. unfold pending. rewrite Eq, Ha. reflexivity.
    + repeat split. unfold pending. world_simpl. rewrite Eq. reflexivity.
Qed.

Lemma command_queue_get_spec (w : World) :
  stdout (snd (command_queue_get json_loads w)) = stdout w /\
  calls (snd (command_queue_get json_loads w)) = calls w /\
  ready_count (snd (command_queue_get json_loads w)) = ready_count w /\
  match fst (command_queue_get json_loads w) with
  | Some cmd =>
      pending json_loads w
      = cmd :: pending json_loads (snd (command_queue_get json_loads w))
  | None => pending json_loads w = []
  end.
Proof.
  unfold command_queue_get.
  destruct (steady_preempt w) as (So & Sc & Sp & Sr).
  set (w1 := preempt json_loads w) in *.
  destruct (queue_get_spec (length (stdin w1)) w1) as (Ho & Hc & Hr & Hm).
  rewrite Ho, Hc, Hr, So, Sc, Sr. repeat split.
  destruct (fst (queue_get json_loads (length (stdin w1)) w1)).
  - rewrite <- Sp. exact Hm.
  - rewrite <- Sp. apply Hm. lia.
Qed.

(** ** One command *)

Lemma dispatch_spec (model : Model) (voice : pystr) (cmd : json) (w : World) :
  let r := dispatch json_loads py_str model voice cmd w in
  pending json_loads (snd r) = pending json_loads w /\
  ready_count (snd r) = ready_count w /\
  match fst r with
  | None =>
      if is_generate cmd then
        exists block,
          generation_block model voice cmd block /\
          stdout (snd r) = stdout w ++ block /\
          calls (snd r) = calls w ++ invocation voice cmd
      else stdout (snd r) = stdout w /\ calls (snd r) = calls w
  | Some o =>
      stdout (snd r) = stdout w /\ calls (snd r) = calls w /\
      match o with
      | Exited code => code = 0 /\ is_generate cmd = false /\ is_quit cmd = true
      | Crashed _ => True
      | _ => False
      end
  end.
Proof.
  unfold dispatch, is_generate, is_quit.
  destruct cmd as [| | | | | |pairs]; cbn [fst snd]; try (repeat split; fail).
  destruct (json_eq_str (dict_get pairs (py "cmd") JNull) (py "generate")) eqn:Eg.
  - destruct (steady_preempt w) as (So & Sc & Sp & Sr).
    set (w1 := with_interrupted false (preempt json_loads w)).
    destruct (dict_get pairs (py "text") (JString [])) as [| | | |text| |] eqn:Et;
      try (cbn [handle_generate fst snd]; repeat split; assumption).
    destruct (handle_generate_spec model text voice w1)
      as (w' & k & Hh & Hk & Ho & Hc & Hp & Hr).
    rewrite Hh. cbn [fst snd]. rewrite Hp, Hr. repeat split; try assumption.
    exists (concat (map frame (firstn k (payloads_of model text voice)))
            ++ end_marker).
    split; [|split].
    + exists text, k. cbn [text_of]. split; [exact Et|reflexivity].
    + rewrite Ho. cbn. rewrite So. reflexivity.
    + rewrite Hc. unfold invocation. cbn [text_of]. rewrite Et. cbn.
      rewrite Sc. reflexivity.
  - destruct (json_eq_str (dict_get pairs (py "cmd") JNull) (py "quit")) eqn:Eq;
      cbn [fst snd].
    + rewrite ready_count_log. repeat split.
    + rewrite ready_count_log. repeat split.
Qed.

(** ** The command loop *)

(** The loop takes the commands to come in order; each generate command
    among those it completes adds one block to stdout and, unless its text
    is blank, one model call. *)
Lemma main_loop_spec (fuel : nat) (model : Model) (voice : pystr) :
  forall w,
    let r := main_loop json_loads py_str fuel model voice w in
    exists done rest blocks,
      pending json_loads w = done ++ rest /\
      Forall2 (generation_block model voice) (filter is_generate done) blocks /\
      stdout (snd r) = stdout w ++ concat blocks /\
      calls (snd r)
      = calls w ++ flat_map (invocation voice) (filter is_generate done) /\
      ready_count (snd r) = ready_count w /\
      match fst r with
      | Blocked => rest = []
      | Exited code =>
          code = 0 /\ exists q rest', rest = q :: rest' /\ is_quit q = true
      | Crashed _ => exists c rest', rest = c :: rest'
      | OutOfFuel => fuel = length done
      end.
Proof.
  induction fuel as [|fuel IH]; intros w; cbn [main_loop].
  - exists [], (pending json_loads w), []. cbn. rewrite !app_nil_r.
    repeat split. constructor.
  - destruct (command_queue_get_spec w) as (Go & Gc & Gr & Gm).
    destruct (command_queue_get json_loads w) as [[cmd|] w1]; cbn [fst snd] in *.
    + pose proof (dispatch_spec model voice cmd w1) as D. cbn zeta in D.
      destruct (dispatch json_loads py_str model voice cmd w1) as [[o|] w2];
        cbn [fst snd] in *.
      * destruct D as (Dp & Dr & Do & Dc & Dm).
        exists [], (pending json_loads w), []. cbn. rewrite !app_nil_r.
        repeat split; try congruence; [constructor|].
        destruct o; try contradiction.
        -- destruct Dm as (-> & _ & Hq). split; [reflexivity|].
           exists cmd, (pending json_loads w1). split; [congruence|exact Hq].
        -- exists cmd, (pending json_loads w1). congruence.
      * destruct D as (Dp & Dr & Dm).
        specialize (IH w2). cbn zeta in IH.
        destruct IH as (done & rest & blocks & Hp & Hb & Ho & Hc & Hr & Hm).
        destruct (is_generate cmd) eqn:Eg.
        -- destruct Dm as (block & Hblk & Dout & Dcalls).
           exists (cmd :: done), rest, (block :: blocks).
           cbn [filter app]. rewrite Eg. cbn [concat flat_map].
           rewrite Ho, Hc, Hr, Dout, Dcalls, Dr, Gm, Go, Gc, Gr, <- Dp, Hp.
           rewrite <- !app_assoc. repeat split.
           ++ constructor; assumption.
           ++ destruct (fst (main_loop json_loads py_str fuel model voice w2));
                try assumption. cbn. congruence.
        -- destruct Dm as (Dout & Dcalls).
           exists (cmd :: done), rest, blocks.
           cbn [filter app]. rewrite Eg.
           rewrite Ho, Hc, Hr, Dout, Dcalls, Dr, Gm, Go, Gc, Gr, <- Dp, Hp.
           repeat split.
           ++ assumption.
           ++ destruct (fst (main_loop json_loads py_str fuel model voice w2));
                try assumption. cbn. congruence.
    + exists [], [], []. cbn. rewrite !app_nil_r. repeat split; try congruence.
      constructor.
Qed.

(** ** Startup *)

Lemma ready_count_READY (w : World) :
  ready_count (stderr_write READY w) = S (ready_count w).
Proof.
  unfold ready_count, stderr_write. world_simpl.
  rewrite count_occ_app. cbn [count_occ].
  match goal with
  | |- context [list_eq_dec ?d ?a ?b] => destruct (list_eq_dec d a b) as [_|N]
  end; [|exfalso; apply N; reflexivity].
  rewrite Nat.add_1_r. reflexivity.
Qed.

Lemma warm_up_spec (model : Model) (voice : pystr) (w : World) :
  stdout (warm_up model voice w) = stdout w /\
  calls (warm_up model voice w) = calls w ++ [(py "Hello.", voice, false)] /\
  ready_count (warm_up model voice w) = ready_count w /\
  stdin (warm_up model voice w) = stdin w /\
  sched (warm_up model voice w) = sched w /\
  stderr (warm_up model voice w)
  = stderr w
    ++ [py "[tts-server] " ++ py "Warming up..." ++ newline;
        py "[tts-server] "
        ++ match drain (generate model (py "Hello.") voice false) with
           | Ok _ => py "Warm-up done"
           | Raised e => py "WARNING: Warm-up failed: " ++ e
           end ++ newline].
Proof.
  unfold warm_up.
  destruct (drain (generate model (py "Hello.") voice false)) as [u|e];
    repeat split;
    try (unfold log; world_simpl; rewrite <- ?app_assoc; reflexivity);
    rewrite ready_count_log; exact (ready_count_log _ w).
Qed.

Lemma startup_spec (argv : list pystr) (w : World) :
  match load_model (argv_model_id argv) with
  | Raised e =>
      startup load_model argv w
      = (Raised e,
         log (py "ERROR: Failed to load model: " ++ e)
             (log (py "Loading model: " ++ argv_model_id argv) w))
  | Ok model =>
      fst (startup load_model argv w) = Ok (model, argv_voice argv) /\
      stdout (snd (startup load_model argv w)) = stdout w /\
      stdin (snd (startup load_model argv w)) = stdin w /\
      calls (snd (startup load_model argv w))
      = calls w ++ [(py "Hello.", argv_voice argv, false)] /\
      ready_count (snd (startup load_model argv w)) = S (ready_count w) /\
      exists lines,
        stderr (snd (startup load_model argv w)) = stderr w ++ lines ++ [READY] /\
        ~ In READY lines /\
        (forall e,
            drain (generate model (py "Hello.") (argv_voice argv) false)
            = Raised e ->
            In (py "[tts-server] " ++ (py "WARNING: Warm-up failed: " ++ e)
                  ++ newline) lines)
  end.
Proof.
  unfold startup. cbn zeta.
  destruct (load_model (argv_model_id argv)) as [model|e]; [|reflexivity].
  cbn [fst snd].
  set (w1 := log _ (log _ w)).
  destruct (warm_up_spec model (argv_voice argv) w1) as (Wo & Wc & Wr & Wi & Ws & We).
  split; [reflexivity|].
  split; [world_simpl; rewrite Wo; reflexivity|].
  split; [world_simpl; rewrite Wi; reflexivity|].
  split; [world_simpl; rewrite Wc; reflexivity|].
  split.
  { rewrite ready_count_READY, Wr. unfold w1. rewrite !ready_count_log.
    reflexivity. }
  exists [py "[tts-server] " ++ (py "Loading model: " ++ argv_model_id argv)
            ++ newline;
          py "[tts-server] "
            ++ (py "Model loaded (sample_rate=" ++ str_int (sample_rate model)
                ++ py ")") ++ newline;
          py "[tts-server] " ++ py "Warming up..." ++ newline;
          py "[tts-server] "
            ++ match drain (generate model (py "Hello.") (argv_voice argv) false) with
               | Ok _ => py "Warm-up done"
               | Raised e => py "WARNING: Warm-up failed: " ++ e
               end ++ newline].
  split.
  { cbn [stderr stderr_write with_stderr]. rewrite We. unfold w1, log.
    cbn [stderr stderr_write with_stderr].
    rewrite <- app_assoc, <- app_assoc, <- app_assoc. reflexivity. }
  split.
  { intros [H|[H|[H|[H|[]]]]]; exact (log_not_READY _ H). }
  intros e He. rewrite He. right. right. right. left. reflexivity.
Qed.

(** ** The chunks a generation consumes *)

Lemma fits_packs (p : list byte) :
  fits p -> exists h, struct_pack_I (len p) = Ok h.
Proof.
  intros H. apply struct_pack_I_Ok_iff. unfold fits, len in *. lia.
Qed.

(** The loop consumes a first part of the stream, writes one frame for
    each chunk of it and stops for one of the four reasons. *)
Lemma stream_loop_run (results : list pull) (w : World) :
  exists chunks rest wk,
    results = map Yield chunks ++ rest /\
    after_chunks json_loads (length chunks) results w = Some (rest, wk) /\
    stops_at json_loads rest wk /\
    stdout (stream_loop json_loads results w)
    = stdout w ++ concat (map frame (map float32_to_int16_pcm chunks)) /\
    Forall fits (map float32_to_int16_pcm chunks).
Proof.
  revert w. induction results as [|[audio|e] results IH]; intros w;
    cbn [stream_loop].
  - exists [], [], w. cbn. rewrite app_nil_r. repeat split. constructor.
  - destruct (steady_preempt w) as (So & _).
    destruct (interrupted (preempt json_loads w)) eqn:Ei.
    { exists [], (Yield audio :: results), w. cbn [map app length concat].
      rewrite app_nil_r. repeat split; [left; exact Ei|exact So|constructor]. }
    destruct (write_audio_chunk (float32_to_int16_pcm audio)
                                (preempt json_loads w)) as [w2|e] eqn:E.
    + pose proof E as E'. apply write_audio_chunk_Ok in E'.
      destruct E' as [-> Hfit].
      destruct (IH (stdout_write (frame (float32_to_int16_pcm audio))
                                 (preempt json_loads w)))
        as (chunks & rest & wk & Hr & Ha & Hs & Ho & Hf).
      exists (audio :: chunks), rest, wk.
      cbn [map app length concat after_chunks]. rewrite Ei, E.
      split; [rewrite Hr; reflexivity|]. split; [exact Ha|].
      split; [exact Hs|]. split; [|constructor; assumption].
      rewrite Ho. cbn. rewrite So, <- app_assoc. reflexivity.
    + exists [], (Yield audio :: results), w. cbn [map app length concat].
      rewrite app_nil_r. repeat split; [|exact So|constructor].
      right. intros Hfit. apply write_audio_chunk_Raised in E.
      destruct E as [e' E]. destruct (fits_packs _ Hfit) as [h Hh].
      congruence.
  - exists [], (Throw e :: results), w. cbn. rewrite app_nil_r.
    repeat split. constructor.
Qed.

(** The point where the loop stops is the only one: two runs of the same
    stream from the same world consume the same chunks. *)
Lemma stream_loop_stop_unique (c1 : list (list float32)) :
  forall c2 results w r1 w1 r2 w2,
    results = map Yield c1 ++ r1 ->
    after_chunks json_loads (length c1) results w = Some (r1, w1) ->
    stops_at json_loads r1 w1 ->
    results = map Yield c2 ++ r2 ->
    after_chunks json_loads (length c2) results w = Some (r2, w2) ->
    stops_at json_loads r2 w2 ->
    c1 = c2.
Proof.
  assert (Hstep : forall audio more k w r wk,
             after_chunks json_loads (S k) (Yield audio :: more) w
             = Some (r, wk) ->
             ~ stops_at json_loads (Yield audio :: more) w).
  { intros audio more k w r wk H [Hi|Hf]; cbn [after_chunks] in H.
    - rewrite Hi in H. discriminate.
    - destruct (interrupted (preempt json_loads w)); [discriminate|].
      destruct (write_audio_chunk _ _) as [w'|e] eqn:E; [|discriminate].
      apply write_audio_chunk_Ok in E. apply Hf, E. }
  induction c1 as [|a c1 IH]; intros [|b c2] results w r1 w1 r2 w2
                                     R1 A1 S1 R2 A2 S2.
  - reflexivity.
  - exfalso. cbn [length after_chunks] in A1. injection A1 as <- <-.
    subst results. cbn [map app length] in A2.
    exact (Hstep _ _ _ _ _ _ A2 S1).
  - exfalso. cbn [length after_chunks] in A2. injection A2 as <- <-.
    subst results. cbn [map app length] in A1.
    exact (Hstep _ _ _ _ _ _ A1 S2).
  - subst results. cbn [map app] in R2. injection R2 as -> R2.
    cbn [map app length after_chunks] in A1, A2.
    destruct (interrupted (preempt json_loads w)); [discriminate|].
    destruct (write_audio_chunk _ _) as [w'|e]; [|discriminate].
    f_equal. exact (IH c2 _ w' r1 w1 r2 w2 eq_refl A1 S1 R2 A2 S2).
Qed.

Lemma consumes_unique (model : Model) (text voice : pystr) (w : World)
                      (c1 c2 : list (list float32)) :
  consumes json_loads model text voice w c1 ->
  consumes json_loads model text voice w c2 ->
  c1 = c2.
Proof.
  unfold consumes, generation_after. destruct (strip text); [congruence|].
  intros (r1 & w1 & R1 & A1 & S1) (r2 & w2 & R2 & A2 & S2).
  exact (stream_loop_stop_unique c1 c2 _ _ r1 w1 r2 w2 R1 A1 S1 R2 A2 S2).
Qed.

(** [handle_generate] on a [str] returns, and writes one frame for each
    chunk it consumes and then the end marker. *)
Lemma handle_generate_run (model : Model) (text voice : pystr) (w : World) :
  exists w' chunks,
    handle_generate json_loads model (JString text) voice w = Ok w' /\
    consumes json_loads model text voice w chunks /\
    stdout w'
    = stdout w ++ concat (map frame (map float32_to_int16_pcm chunks))
      ++ end_marker /\
    Forall fits (map float32_to_int16_pcm chunks).
Proof.
  unfold handle_generate, consumes, generation_after.
  destruct (strip text) as [|c l].
  - exists (write_end_marker w), []. repeat split. constructor.
  - destruct (stream_loop_run
                (generate model text voice true)
                (with_calls (calls w ++ [(text, voice, true)]) w))
      as (chunks & rest & wk & Hr & Ha & Hs & Ho & Hf).
    eexists. exists chunks. split; [reflexivity|].
    split; [exists rest, wk; repeat split; assumption|].
    split; [|exact Hf].
    rewrite stdout_write_end_marker, Ho, <- app_assoc. reflexivity.
Qed.

Lemma count_empty_payloads (chunks : list (list float32)) :
  count_empty (map float32_to_int16_pcm chunks ++ [[]])
  = S (empty_chunks chunks).
Proof.
  unfold count_empty, empty_chunks.
  induction chunks as [|audio chunks IH]; [reflexivity|].
  cbn [map app filter].
  destruct audio as [|x audio]; [cbn; rewrite IH; reflexivity|].
  destruct (float32_to_int16_pcm (x :: audio)) eqn:E; [|exact IH].
  apply pcm_nil_iff in E. discriminate.
Qed.

Lemma empty_chunks_zero (chunks : list (list float32)) :
  empty_chunks chunks = 0%nat <-> Forall (fun audio => audio <> []) chunks.
Proof.
  unfold empty_chunks. induction chunks as [|audio chunks IH]; cbn [filter].
  - split; [constructor|reflexivity].
  - destruct audio as [|x audio]; cbn [length].
    + split; [discriminate|]. intros H. inversion H. contradiction.
    + rewrite IH. split.
      * intros H. constructor; [discriminate|exact H].
      * intros H. inversion H. assumption.
Qed.

(* ------------------------------------------------------------------ *)
(** ** The claims *)


(** C2: when the first [k] chunks of a generation are written and the
    flag is up at the check that follows, the output is exactly those [k]
    data frames and one end marker, and the bytes before the marker are a
    strict prefix of what the run without an interrupt writes. *)
Theorem C2_interrupt_truncates
        (model : Model) (text voice : pystr) (w : World)
        (k : nat) (rest : list pull) (wk : World) :
  strip text <> [] ->
  generation_after json_loads k model text voice w = Some (rest, wk) ->
  interrupted (preempt json_loads wk) = true ->
  exists w' wfull,
    let data := firstn k (payloads_of model text voice) in
    handle_generate json_loads model (JString text) voice w = Ok w' /\
    handle_generate json_loads model (JString text) voice (uninterrupted w)
    = Ok wfull /\
    length data = k /\
    emitted w w' = concat (map frame data) ++ end_marker /\
    emitted (uninterrupted w) wfull
    = concat (map frame (payloads_of model text voice)) ++ end_marker /\
    strict_prefix (concat (map frame data)) (emitted (uninterrupted w) wfull).
Proof.
  intros Ht Hk Hi. unfold generation_after in Hk.
  unfold handle_generate, payloads_of.
  destruct (strip text) as [|c l] eqn:Es; [contradiction|].
  set (results := generate model text voice true) in *.
  destruct (after_chunks_spec k results _ rest wk Hk) as (Hl & Hn & Ho).
  do 2 eexists. cbn zeta.
  split; [reflexivity|]. split; [reflexivity|].
  split; [exact Hn|].
  assert (E1 : emitted w
                 (write_end_marker
                    (stream_loop json_loads results
                       (with_calls (calls w ++ [(text, voice, true)]) w)))
               = concat (map frame (firstn k (writable results))) ++ end_marker).
  { apply emitted_app. rewrite stdout_write_end_marker, Hl.
    rewrite (stream_loop_stops rest wk Hi), Ho, <- app_assoc. reflexivity. }
  assert (E2 : emitted (uninterrupted w)
                 (write_end_marker
                    (stream_loop json_loads results
                       (with_calls (calls (uninterrupted w)
                                    ++ [(text, voice, true)])
                                   (uninterrupted w))))
               = concat (map frame (writable results)) ++ end_marker).
  { apply emitted_app. rewrite stdout_write_end_marker.
    rewrite stream_loop_uninterrupted;
      [rewrite <- app_assoc; reflexivity|reflexivity|constructor]. }
  split; [exact E1|]. split; [exact E2|].
  rewrite E2. exists (concat (map frame (skipn k (writable results))) ++ end_marker).
  split.
  - intros E. apply app_eq_nil in E. destruct E as [_ E]. discriminate E.
  - rewrite app_assoc, <- concat_app, <- map_app, firstn_skipn. reflexivity.
Qed.

Lemma reader_step_interrupt (w : World) (line : pystr) (rest : list pystr) :
  reader_alive w = true -> stdin w = line :: rest ->
  is_interrupt_line json_loads line = true ->
  stdin_reader_step json_loads w = with_interrupted true (with_stdin rest w).
Proof.
  unfold stdin_reader_step, is_interrupt_line. intros -> -> H.
  destruct (strip line); [discriminate|].
  destruct (json_loads _) as [v|msg|e]; try discriminate.
  destruct v; try discriminate. rewrite H. reflexivity.
Qed.

Lemma arrivals_no_interrupt (lines : list pystr) :
  Forall (fun cmd => is_interrupt cmd = false) (arrivals json_loads lines).
Proof.
  induction lines as [|line rest IH]; cbn [arrivals]; [constructor|].
  destruct (strip line); [exact IH|].
  destruct (json_loads _) as [v|msg|e]; try exact IH; try constructor.
  destruct v; try constructor.
  destruct (json_eq_str _ _) eqn:E; [exact IH|].
  constructor; [exact E|exact IH].
Qed.

Lemma dispatch_generate_uninterrupted
      (model : Model) (voice : pystr) (cmd : json) (text : pystr) (w : World) :
  is_generate cmd = true -> text_of cmd = JString text ->
  no_interrupt_ahead json_loads w ->
  fst (dispatch json_loads py_str model voice cmd w) = None /\
  emitted w (snd (dispatch json_loads py_str model voice cmd w))
  = concat (map frame (payloads_of model text voice)) ++ end_marker.
Proof.
  unfold is_generate, text_of, dispatch, payloads_of.
  destruct cmd as [| | | | | |pairs]; try discriminate.
  intros -> -> Hn. unfold handle_generate.
  destruct (steady_preempt w) as (So & _).
  destruct (preempt_no_interrupt w Hn) as [_ Hn'].
  destruct (strip text) as [|c l]; cbn [fst snd].
  - split; [reflexivity|]. apply emitted_app.
    rewrite stdout_write_end_marker. cbn. rewrite So. reflexivity.
  - split; [reflexivity|]. apply emitted_app.
    rewrite stdout_write_end_marker.
    rewrite stream_loop_uninterrupted; [|reflexivity|exact Hn'].
    cbn. rewrite So, <- app_assoc. reflexivity.
Qed.

(** C3: a line that decodes to an object whose [cmd] is "interrupt" sets
    the flag and leaves the queue as it is; nothing the reader thread
    queues is an interrupt command; and a generate command that is taken
    from the queue -- whatever the flag was, so also after an interrupt
    that came during the generation before it -- runs to the end of its
    stream when no interrupt line is read from then on. *)
Theorem C3_interrupt_bypasses_queue :
  (forall w line rest,
      reader_alive w = true -> stdin w = line :: rest ->
      is_interrupt_line json_loads line = true ->
      interrupted (stdin_reader_step json_loads w) = true /\
      command_queue (stdin_reader_step json_loads w) = command_queue w /\
      stdin (stdin_reader_step json_loads w) = rest) /\
  (forall lines,
      Forall (fun cmd => is_interrupt cmd = false) (arrivals json_loads lines)) /\
  (forall model voice cmd text w,
      is_generate cmd = true -> text_of cmd = JString text ->
      no_interrupt_ahead json_loads w ->
      fst (dispatch json_loads py_str model voice cmd w) = None /\
      emitted w (snd (dispatch json_loads py_str model voice cmd w))
      = concat (map frame (payloads_of model text voice)) ++ end_marker).
Proof.
  split; [|split].
  - intros w line rest Ha Hs Hi.
    rewrite (reader_step_interrupt w line rest Ha Hs Hi). repeat split.
  - exact arrivals_no_interrupt.
  - exact dispatch_generate_uninterrupted.
Qed.

(** C4, as the code has it: the loop filters nothing.  It writes one
    frame for every chunk it consumes, in order, and a chunk of [n]
    samples makes a frame of [2 n] payload bytes, so an empty chunk makes
    a zero-length frame.  When the stream yields no empty chunk, every
    data frame has a payload and the end marker is the only zero-length
    frame of the generation. *)
Theorem C4_no_empty_frame_without_empty_chunk
        (model : Model) (text voice : pystr) (w : World) :
  exists w' chunks data,
    handle_generate json_loads model (JString text) voice w = Ok w' /\
    consumes json_loads model text voice w chunks /\
    (forall other,
        consumes json_loads model text voice w other -> other = chunks) /\
    emitted w w' = concat (map frame data) ++ end_marker /\
    read_frames (emitted w w') = Some (data ++ [[]]) /\
    Forall2 (fun audio payload =>
               payload = float32_to_int16_pcm audio
               /\ length payload = (2 * length audio)%nat
               /\ (payload = [] <-> audio = []))
            chunks data /\
    ((forall audio,
         In (Yield audio) (generate model text voice true) -> audio <> []) ->
     Forall (fun payload => payload <> []) data /\
     count_empty (data ++ [[]]) = 1%nat).
Proof.
  destruct (handle_generate_run model text voice w)
    as (w' & chunks & Hh & Hc & Ho & Hf).
  exists w', chunks, (map float32_to_int16_pcm chunks).
  rewrite (emitted_app w w' _ Ho).
  split; [exact Hh|]. split; [exact Hc|].
  split; [intros other H; exact (consumes_unique _ _ _ _ _ _ H Hc)|].
  split; [reflexivity|].
  split; [apply read_frames_stream, Hf|].
  split.
  { clear. induction chunks as [|audio chunks IH]; cbn [map]; constructor;
      [|exact IH].
    split; [reflexivity|]. split; [apply pcm_length|apply pcm_nil_iff]. }
  intros Hne.
  assert (Hall : Forall (fun audio => audio <> []) chunks).
  { unfold consumes in Hc. destruct (strip text); [subst; constructor|].
    destruct Hc as (rest & wk & Hr & _).
    apply Forall_forall. intros audio Hin. apply Hne. rewrite Hr.
    apply in_or_app. left. apply in_map, Hin. }
  split.
  - clear -Hall. induction Hall as [|audio chunks Ha _ IH]; cbn [map];
      constructor; [|exact IH].
    rewrite pcm_nil_iff. exact Ha.
  - rewrite count_empty_payloads.
    rewrite (proj2 (empty_chunks_zero chunks) Hall). reflexivity.
Qed.

(** C7: the main loop takes the commands in the order they arrive, and
    stdout is the blocks of the generate commands it completes, one after
    the other in that order, each block ending with its end marker: no
    byte of a later generation stands before the end marker of an earlier
    one.  The model is called once per generation with a non-blank text,
    in the same order. *)
Theorem C7_generations_in_arrival_order
        (fuel : nat) (model : Model) (voice : pystr) (w : World) :
  exists done rest blocks,
    pending json_loads w = done ++ rest /\
    Forall2 (generation_block model voice) (filter is_generate done) blocks /\
    emitted w (snd (main_loop json_loads py_str fuel model voice w))
    = concat blocks /\
    calls (snd (main_loop json_loads py_str fuel model voice w))
    = calls w ++ flat_map (invocation voice) (filter is_generate done) /\
    (fst (main_loop json_loads py_str fuel model voice w) = Blocked ->
     rest = []).
Proof.
  destruct (main_loop_spec fuel model voice w)
    as (done & rest & blocks & Hp & Hb & Ho & Hc & _ & Hm).
  exists done, rest, blocks.
  repeat split; try assumption.
  - apply emitted_app. exact Ho.
  - intros E. rewrite E in Hm. exact Hm.
Qed.

(** C8: for a text that is empty or all whitespace, [handle_generate]
    writes the four zero bytes of the end marker and does nothing else:
    no model call, no line on stderr. *)
Theorem C8_blank_text_writes_only_the_marker
        (model : Model) (text voice : pystr) (w : World) :
  forallb isspace text = true ->
  exists w',
    handle_generate json_loads model (JString text) voice w = Ok w' /\
    stdout w' = stdout w ++ [x00; x00; x00; x00] /\
    calls w' = calls w /\
    stderr w' = stderr w /\
    payloads_of model text voice = [].
Proof.
  intros H. apply strip_nil in H.
  unfold handle_generate, payloads_of. rewrite H.
  exists (write_end_marker w). repeat split.
Qed.

Lemma pystr_eqb_eq (a b : pystr) : pystr_eqb a b = true -> a = b.
Proof.
  unfold pystr_eqb. destruct (list_eq_dec N.eq_dec a b); [trivial|discriminate].
Qed.

Lemma dict_get_missing (pairs : list (pystr * json)) (key : pystr) :
  (forall v, ~ In (key, v) pairs) ->
  forall default, dict_get pairs key default = default.
Proof.
  induction pairs as [|[k v] rest IH]; intros H default; [reflexivity|].
  cbn [dict_get]. destruct (pystr_eqb k key) eqn:E.
  - apply pystr_eqb_eq in E. subst k. exfalso. apply (H v). left. reflexivity.
  - apply IH. intros v' Hv. apply (H v'). right. exact Hv.
Qed.

(** C10: a generate command whose object has no "text" key is run with
    the empty string: the main thread clears the flag, writes the end
    marker and nothing else, calls no model and writes no line on
    stderr. *)
Theorem C10_missing_text_is_empty
        (model : Model) (voice : pystr) (pairs : list (pystr * json))
        (w : World) :
  is_generate (JObject pairs) = true ->
  (forall v, ~ In (py "text", v) pairs) ->
  text_of (JObject pairs) = JString [] /\
  fst (dispatch json_loads py_str model voice (JObject pairs) w) = None /\
  emitted w (snd (dispatch json_loads py_str model voice (JObject pairs) w))
  = [x00; x00; x00; x00] /\
  calls (snd (dispatch json_loads py_str model voice (JObject pairs) w))
  = calls w /\
  stderr (snd (dispatch json_loads py_str model voice (JObject pairs) w))
  = stderr (preempt json_loads w).
Proof.
  unfold is_generate, text_of, dispatch. intros -> Ht.
  rewrite (dict_get_missing pairs (py "text") Ht).
  cbn [handle_generate strip lstrip rstrip rev app fst snd].
  destruct (steady_preempt w) as (So & Sc & _).
  repeat split.
  - apply emitted_app. rewrite stdout_write_end_marker. cbn. rewrite So.
    reflexivity.
  - cbn. exact Sc.
Qed.


(** When no command ever arrives, [main] loads the model, warms up and
    then waits on the queue: nothing is written to stdout and the model is
    called for the warm-up only. *)
Lemma main_blocked_when_nothing_arrives
      (argv : list pystr) (w : World) (model : Model) :
  load_model (argv_model_id argv) = Ok model ->
  arrivals json_loads (stdin w) = [] ->
  fst (main json_loads py_str load_model argv w) = Blocked /\
  stdout (snd (main json_loads py_str load_model argv w)) = stdout w /\
  calls (snd (main json_loads py_str load_model argv w))
  = calls w ++ [(py "Hello.", argv_voice argv, false)].
Proof.
  intros Hm Ha. pose proof (startup_spec argv w) as S. rewrite Hm in S.
  destruct S as (Sf & So & Si & Sc & _).
  unfold main.
  destruct (startup load_model argv w) as [[[m v]|e] w1]; cbn [fst snd] in *;
    [|discriminate].
  match goal with
  | |- fst (main_loop _ _ ?f ?m ?v ?w0) = _ /\ _ =>
      destruct (main_loop_spec f m v w0)
        as (dn & rs & bl & Hp & Hb & Ho & Hc & _ & Hx);
      assert (P0 : pending json_loads w0 = [])
        by (unfold pending; cbn; rewrite Si; exact Ha);
      assert (O0 : stdout w0 = stdout w) by (cbn; exact So);
      assert (C0 : calls w0 = calls w ++ [(py "Hello.", argv_voice argv, false)])
        by (cbn; exact Sc);
      set (r := main_loop json_loads py_str f m v w0) in *
  end.
  rewrite P0 in Hp. symmetry in Hp. apply app_eq_nil in Hp.
  destruct Hp as [-> ->]. cbn [filter flat_map] in *.
  inversion Hb; subst. cbn [concat] in Ho. rewrite !app_nil_r in *.
  split; [|split; congruence].
  destruct (fst r); try reflexivity.
  - destruct Hx as (_ & q & rest' & Hq & _). discriminate Hq.
  - destruct Hx as (c & rest' & Hq). discriminate Hq.
  - discriminate Hx.
Qed.

End Properties.

(* ------------------------------------------------------------------ *)
(** ** The claims on concrete runs *)

(** C2 on the scenario of the specification: a stream of five chunks,
    the interrupt line read after the second frame is written and before
    the third chunk is checked.  Two data frames, then the end marker. *)
Lemma C2_witness :
  exists w',
    handle_generate Json.loads scripted_model (JString (py "aabab"))
                    DEFAULT_VOICE
                    (initial_world [Json.line "{'cmd':'interrupt'}"]
                                   [0; 0; 1]%nat)
    = Ok w' /\
    read_frames (stdout w') = Some [[x01; x80]; [x01; x80]; []] /\
    read_frames
      (concat (map frame (payloads_of scripted_model (py "aabab") DEFAULT_VOICE))
       ++ end_marker)
    = Some [[x01; x80]; [x01; x80]; [xff; x7f]; [x01; x80]; [xff; x7f]; []].
Proof.
  destruct (C2_interrupt_truncates
              Json.loads scripted_model (py "aabab") DEFAULT_VOICE
              (initial_world [Json.line "{'cmd':'interrupt'}"] [0; 0; 1]%nat)
              2
              (map scripted_pull (py "bab"))
              (mkWorld [Json.line "{'cmd':'interrupt'}"] true false []
                       [x00; x00; x00; x02; x01; x80;
                        x00; x00; x00; x02; x01; x80] []
                       [(py "aabab", DEFAULT_VOICE, true)] [1%nat]))
    as (w' & wfull & H1 & _ & _ & H2 & _).
  - vm_compute. discriminate.
  - vm_compute. reflexivity.
  - vm_compute. reflexivity.
  - exists w'. split; [exact H1|].
    assert (E : stdout w'
                = concat (map frame
                            (firstn 2 (payloads_of scripted_model (py "aabab")
                                                   DEFAULT_VOICE)))
                  ++ end_marker) by exact H2.
    rewrite E. split; vm_compute; reflexivity.
Defined.

(** C3 on concrete input: the interrupt line sets the flag and queues
    nothing, and a generation that starts with the flag still up from an
    earlier interrupt writes all its frames. *)
Lemma C3_witness :
  interrupted (stdin_reader_step Json.loads
                 (initial_world [Json.line "{'cmd':'interrupt'}"] [])) = true /\
  command_queue (stdin_reader_step Json.loads
                   (initial_world [Json.line "{'cmd':'interrupt'}"] [])) = [] /\
  emitted (mkWorld [] true true [] [] [] [] [])
          (snd (dispatch Json.loads str_scalar scripted_model DEFAULT_VOICE
                  (JObject [(py "cmd", JString (py "generate"));
                            (py "text", JString (py "bb"))])
                  (mkWorld [] true true [] [] [] [] [])))
  = [x00; x00; x00; x02; xff; x7f; x00; x00; x00; x02; xff; x7f;
     x00; x00; x00; x00].
Proof.
  destruct (C3_interrupt_bypasses_queue Json.loads str_scalar) as (A & _ & C).
  destruct (A (initial_world [Json.line "{'cmd':'interrupt'}"] [])
              (Json.line "{'cmd':'interrupt'}") [])
    as (I & Q & _); [reflexivity|reflexivity|vm_compute; reflexivity|].
  destruct (C scripted_model DEFAULT_VOICE
              (JObject [(py "cmd", JString (py "generate"));
                        (py "text", JString (py "bb"))])
              (py "bb") (mkWorld [] true true [] [] [] [] []))
    as [_ E]; [vm_compute; reflexivity|reflexivity|constructor|].
  split; [exact I|]. split; [exact Q|]. rewrite E. vm_compute. reflexivity.
Defined.


(** C4 as stated fails: a stream that yields one empty chunk makes
    [handle_generate] write a zero-length data frame before the end
    marker, so the output reads back as two zero-length frames. *)
Lemma C4_empty_chunk_is_written :
  exists w' frames,
    generate scripted_model (py "_") DEFAULT_VOICE true = [Yield []] /\
    handle_generate Json.loads scripted_model (JString (py "_")) DEFAULT_VOICE
                    (initial_world [] [])
    = Ok w' /\
    stdout w' = frame [] ++ end_marker /\
    read_frames (stdout w') = Some frames /\
    frames = [[]; []] /\
    count_empty frames = 2%nat.
Proof.
  eexists. eexists.
  split; [reflexivity|]. split; [vm_compute; reflexivity|].
  split; [vm_compute; reflexivity|]. split; [vm_compute; reflexivity|].
  split; reflexivity.
Qed.

(** C4 as amended, on a stream of two chunks of one sample each: both
    are consumed and written, and only the end marker is zero-length. *)
Lemma C4_witness :
  exists w' data,
    handle_generate Json.loads scripted_model (JString (py "ab")) DEFAULT_VOICE
                    (initial_world [] [])
    = Ok w' /\
    consumes Json.loads scripted_model (py "ab") DEFAULT_VOICE
             (initial_world [] []) [[f32_of_Z (-1)]; [f32_of_Z 1]] /\
    Forall2 (fun audio payload => payload = float32_to_int16_pcm audio)
            [[f32_of_Z (-1)]; [f32_of_Z 1]] data /\
    read_frames (emitted (initial_world [] []) w') = Some (data ++ [[]]) /\
    Forall (fun payload => payload <> []) data /\
    count_empty (data ++ [[]]) = 1%nat.
Proof.
  destruct (C4_no_empty_frame_without_empty_chunk
              Json.loads scripted_model (py "ab") DEFAULT_VOICE
              (initial_world [] []))
    as (w' & chunks & data & Hh & Hc & Hu & _ & Hr & Hp & Hn).
  assert (C : consumes Json.loads scripted_model (py "ab") DEFAULT_VOICE
                       (initial_world [] []) [[f32_of_Z (-1)]; [f32_of_Z 1]]).
  { unfold consumes. destruct (strip (py "ab")) eqn:Es; [discriminate Es|].
    exists [], (mkWorld [] true false []
                        [x00; x00; x00; x02; x01; x80;
                         x00; x00; x00; x02; xff; x7f] []
                        [(py "ab", DEFAULT_VOICE, true)] []).
    split; [vm_compute; reflexivity|].
    split; [vm_compute; reflexivity|exact I]. }
  rewrite <- (Hu _ C) in Hp.
  destruct Hn as [Hd Hk].
  { intros audio H. vm_compute in H.
    destruct H as [H|[H|[]]]; injection H as <-; discriminate. }
  exists w', data.
  split; [exact Hh|]. split; [exact C|].
  split; [|split; [exact Hr|split; [exact Hd|exact Hk]]].
  clear -Hp. induction Hp as [|audio payload chunks data [E _] _ IH];
    constructor; assumption.
Defined.

(** C8 at a text of a space, a tab and a no-break space. *)
Lemma C8_witness :
  exists w',
    handle_generate Json.loads scripted_model (JString [32; 9; 160]%N)
                    DEFAULT_VOICE (initial_world [] [])
    = Ok w' /\
    stdout w' = [] ++ [x00; x00; x00; x00] /\
    calls w' = [] /\
    stderr w' = [] /\
    payloads_of scripted_model [32; 9; 160]%N DEFAULT_VOICE = [].
Proof.
  apply (C8_blank_text_writes_only_the_marker
           Json.loads scripted_model [32; 9; 160]%N DEFAULT_VOICE
           (initial_world [] [])).
  reflexivity.
Defined.

(** C10 at the command [{"cmd": "generate"}]. *)
Lemma C10_witness :
  emitted (initial_world [] [])
          (snd (dispatch Json.loads str_scalar scripted_model DEFAULT_VOICE
                  (JObject [(py "cmd", JString (py "generate"))])
                  (initial_world [] [])))
  = [x00; x00; x00; x00] /\
  calls (snd (dispatch Json.loads str_scalar scripted_model DEFAULT_VOICE
                (JObject [(py "cmd", JString (py "generate"))])
                (initial_world [] [])))
  = [].
Proof.
  destruct (C10_missing_text_is_empty
              Json.loads str_scalar scripted_model DEFAULT_VOICE
              [(py "cmd", JString (py "generate"))] (initial_world [] []))
    as (_ & _ & E & K & _).
  - vm_compute. reflexivity.
  - intros v [H|[]]. vm_compute in H. discriminate.
  - split; [exact E|exact K].
Defined.


(* C5: the reader thread on a line that is JSON but no object. *)

Lemma dead_reader_stays (json_loads : pystr -> loads_result) (n : nat)
                        (w : World) :
  reader_alive w = false -> stdin_reader json_loads n w = w.
Proof.
  revert w. induction n as [|n IH]; intros w H; cbn [stdin_reader]; [reflexivity|].
  unfold stdin_reader_step at 1. rewrite H. apply IH. exact H.
Qed.

(** A line that fails to decode is logged and skipped; the reader thread
    lives on and the commands after it still arrive. *)
Lemma undecodable_line_is_skipped
      (json_loads : pystr -> loads_result) (w : World)
      (line : pystr) (rest : list pystr) (msg : pystr) :
  reader_alive w = true -> stdin w = line :: rest ->
  strip line <> [] -> json_loads (strip line) = JSONDecodeError msg ->
  stdin_reader_step json_loads w
  = log (py "ERROR: Invalid JSON: " ++ msg) (with_stdin rest w) /\
  arrivals json_loads (line :: rest) = arrivals json_loads rest.
Proof.
  intros Ha Hs Hl Hj. unfold stdin_reader_step. rewrite Ha, Hs.
  cbn [arrivals]. destruct (strip line) as [|c l]; [contradiction|].
  rewrite Hj. split; reflexivity.
Qed.

(** A line that decodes to a value that is no object ends the reader
    thread: no line after it is read and no command after it arrives. *)
Lemma non_object_line_ends_reader
      (json_loads : pystr -> loads_result) (w : World)
      (line : pystr) (rest : list pystr) (v : json) :
  reader_alive w = true -> stdin w = line :: rest ->
  strip line <> [] -> json_loads (strip line) = Loaded v ->
  (forall pairs, v <> JObject pairs) ->
  stdin_reader_step json_loads w = with_reader_alive false (with_stdin rest w) /\
  arrivals json_loads (line :: rest) = [] /\
  forall n, stdin (stdin_reader json_loads (S n) w) = rest.
Proof.
  intros Ha Hs Hl Hj Hv.
  assert (E : stdin_reader_step json_loads w
              = with_reader_alive false (with_stdin rest w)).
  { unfold stdin_reader_step. rewrite Ha, Hs.
    destruct (strip line) as [|c l]; [contradiction|]. rewrite Hj.
    destruct v; try reflexivity. exfalso. eapply Hv. reflexivity. }
  split; [exact E|]. split.
  - cbn [arrivals]. destruct (strip line) as [|c l]; [contradiction|].
    rewrite Hj. destruct v; try reflexivity. exfalso. eapply Hv. reflexivity.
  - intros n. cbn [stdin_reader]. rewrite E, dead_reader_stays; reflexivity.
Qed.

(** C5 fails on the code: the line [42] decodes to a value that is no
    object, the reader thread dies on it without a diagnostic, and the
    generate command on the next line never arrives: whatever the
    interleaving, the run writes nothing to stdout, calls the model for the
    warm-up only, and waits on the empty queue for ever.  Without the line
    before it the same command does arrive. *)
Theorem C5_non_object_line_stops_the_reader (schedule : list nat) :
  Json.loads (Json.line "42") = Loaded (JInt 42) /\
  stdin_reader_step Json.loads
    (initial_world [Json.line "42"; Json.line "{'cmd':'generate','text':'hi'}"]
                   schedule)
  = mkWorld [Json.line "{'cmd':'generate','text':'hi'}"] false false [] [] []
            [] schedule /\
  arrivals Json.loads
           [Json.line "42"; Json.line "{'cmd':'generate','text':'hi'}"] = [] /\
  arrivals Json.loads [Json.line "{'cmd':'generate','text':'hi'}"]
  = [JObject [(py "cmd", JString (py "generate"));
              (py "text", JString (py "hi"))]] /\
  fst (main Json.loads str_scalar scripted_load [py "tts-server.py"]
            (initial_world
               [Json.line "42"; Json.line "{'cmd':'generate','text':'hi'}"]
               schedule))
  = Blocked /\
  stdout (snd (main Json.loads str_scalar scripted_load [py "tts-server.py"]
                    (initial_world
                       [Json.line "42";
                        Json.line "{'cmd':'generate','text':'hi'}"]
                       schedule)))
  = [] /\
  calls (snd (main Json.loads str_scalar scripted_load [py "tts-server.py"]
                   (initial_world
                      [Json.line "42";
                       Json.line "{'cmd':'generate','text':'hi'}"]
                      schedule)))
  = [(py "Hello.", DEFAULT_VOICE, false)].
Proof.
  split; [vm_compute; reflexivity|].
  split; [vm_compute; reflexivity|].
  split; [vm_compute; reflexivity|].
  split; [vm_compute; reflexivity|].
  apply (main_blocked_when_nothing_arrives
           Json.loads str_scalar scripted_load [py "tts-server.py"]
           (initial_world
              [Json.line "42"; Json.line "{'cmd':'generate','text':'hi'}"]
              schedule)
           scripted_model).
  - vm_compute. reflexivity.
  - vm_compute. reflexivity.
Qed.

(** The run of the specification's scenario: Generate(A) is running,
    Generate(B) is queued, then the interrupt line is read.  A is cut
    after its first frame, B is written whole after A's end marker. *)
Example interrupt_hits_the_running_generation_only :
  let r := main Json.loads str_scalar scripted_load [py "tts-server.py"]
                (initial_world
                   [Json.line "{'cmd':'generate','text':'aab'}";
                    Json.line "{'cmd':'generate','text':'bb'}";
                    Json.line "{'cmd':'interrupt'}";
                    Json.line "{'cmd':'quit'}"]
                   [0; 0; 0; 3]%nat) in
  fst r = Exited 0 /\
  read_frames (stdout (snd r))
  = Some [[x01; x80]; []; [xff; x7f]; [xff; x7f]; []].
Proof. vm_compute. split; reflexivity. Qed.

(** C6 at the sample 0.75: the scaled value 24575.25 is cut to 24575,
    bytes FF 5F. *)
Lemma C6_witness :
  float32_to_int16_pcm [S754_finite false 12582912 (-24)] = [xff; x5f] /\
  float32_to_int16_pcm [S754_infinity false] = [xff; x7f].
Proof.
  destruct C6_pcm_encoder as (_ & _ & R & Above & _).
  destruct (R (S754_finite false 12582912 (-24)) eq_refl eq_refl)
    as (n & Ht & _ & He).
  vm_compute in Ht. injection Ht as <-.
  split; [exact He|].
  exact (eq_trans (Above (S754_infinity false) eq_refl) eq_refl).
Defined.

(* ------------------------------------------------------------------ *)
(** * Further properties of the code *)

(** ** The wire format *)

Lemma byte_of_Z_of_byte (b : byte) : byte_of_Z (Z_of_byte b) = b.
Proof.
  unfold byte_of_Z, Z_of_byte.
  pose proof (Byte.to_N_bounded b) as Hb.
  rewrite Z.mod_small by lia.
  rewrite N2Z.id, Byte.of_to_N. reflexivity.
Qed.

Lemma Z_of_byte_range (b : byte) : 0 <= Z_of_byte b < 256.
Proof. unfold Z_of_byte. pose proof (Byte.to_N_bounded b). lia. Qed.

Lemma byte_of_Z_mod (z : Z) (b : byte) :
  z mod 256 = Z_of_byte b -> byte_of_Z z = b.
Proof.
  intros H. rewrite <- (byte_of_Z_of_byte b), <- H.
  unfold byte_of_Z. rewrite Z.mod_mod by lia. reflexivity.
Qed.

Lemma unpack_I_range (b3 b2 b1 b0 : byte) :
  0 <= unpack_I b3 b2 b1 b0 < 2 ^ 32.
Proof.
  unfold unpack_I.
  pose proof (Z_of_byte_range b3). pose proof (Z_of_byte_range b2).
  pose proof (Z_of_byte_range b1). pose proof (Z_of_byte_range b0).
  change (2 ^ 32) with 4294967296. change (2 ^ 24) with 16777216.
  change (2 ^ 16) with 65536. change (2 ^ 8) with 256. lia.
Qed.

(** Every four bytes are the header [struct.pack] makes of the number they
    read as. *)
Lemma pack_unpack (b3 b2 b1 b0 : byte) :
  struct_pack_I (unpack_I b3 b2 b1 b0) = Ok [b3; b2; b1; b0].
Proof.
  pose proof (unpack_I_range b3 b2 b1 b0) as Hr.
  unfold struct_pack_I.
  destruct (Z.leb_spec 0 (unpack_I b3 b2 b1 b0)); [|lia].
  destruct (Z.ltb_spec (unpack_I b3 b2 b1 b0) (2 ^ 32)); [|lia].
  cbn [andb]. rewrite !Z.shiftr_div_pow2 by lia.
  unfold unpack_I in *.
  pose proof (Z_of_byte_range b3). pose proof (Z_of_byte_range b2).
  pose proof (Z_of_byte_range b1). pose proof (Z_of_byte_range b0).
  change (2 ^ 24) with 16777216. change (2 ^ 16) with 65536.
  change (2 ^ 8) with 256.
  set (a3 := Z_of_byte b3) in *. set (a2 := Z_of_byte b2) in *.
  set (a1 := Z_of_byte b1) in *. set (a0 := Z_of_byte b0) in *.
  assert (E3 : (a3 * 16777216 + a2 * 65536 + a1 * 256 + a0) / 16777216 = a3)
    by (symmetry; apply Z.div_unique with (a2 * 65536 + a1 * 256 + a0); lia).
  assert (E2 : (a3 * 16777216 + a2 * 65536 + a1 * 256 + a0) / 65536
               = a3 * 256 + a2)
    by (symmetry; apply Z.div_unique with (a1 * 256 + a0); lia).
  assert (E1 : (a3 * 16777216 + a2 * 65536 + a1 * 256 + a0) / 256
               = a3 * 65536 + a2 * 256 + a1)
    by (symmetry; apply Z.div_unique with a0; lia).
  rewrite E3, E2, E1.
  repeat f_equal; apply byte_of_Z_mod.
  - apply Z.mod_small; lia.
  - symmetry; apply Z.mod_unique with a3; lia.
  - symmetry; apply Z.mod_unique with (a3 * 256 + a2); lia.
  - symmetry; apply Z.mod_unique with (a3 * 65536 + a2 * 256 + a1); lia.
Qed.

Lemma parse_frames_frames (ps : list (list byte)) (fuel : nat) :
  Forall fits ps -> (length ps <= fuel)%nat ->
  parse_frames fuel (concat (map frame ps)) = Some ps.
Proof.
  intros Hps. revert fuel. induction Hps as [|p ps Hp _ IH]; intros fuel Hf.
  - destruct fuel; reflexivity.
  - destruct fuel as [|fuel]; [inversion Hf|].
    cbn [map concat]. rewrite parse_frames_frame by exact Hp.
    rewrite IH by (simpl in Hf; lia). reflexivity.
Qed.

Lemma frames_length (ps : list (list byte)) :
  Forall fits ps -> (length ps <= length (concat (map frame ps)))%nat.
Proof.
  induction 1 as [|p ps Hp _ IH]; simpl; [lia|].
  rewrite length_app, frame_length by exact Hp. lia.
Qed.

Lemma parse_frames_sound (fuel : nat) :
  forall bs fs,
    parse_frames fuel bs = Some fs ->
    bs = concat (map frame fs) /\ Forall fits fs.
Proof.
  induction fuel as [|fuel IH]; intros bs fs H.
  - destruct bs as [|b3 [|b2 [|b1 [|b0 rest]]]]; try discriminate.
    injection H as <-. split; [reflexivity|constructor].
  - destruct bs as [|b3 [|b2 [|b1 [|b0 rest]]]]; try discriminate.
    + injection H as <-. split; [reflexivity|constructor].
    + cbn [parse_frames] in H.
      pose proof (unpack_I_range b3 b2 b1 b0) as Hr.
      set (n := Z.to_nat (unpack_I b3 b2 b1 b0)) in *.
      destruct (Nat.leb_spec n (length rest)) as [Hle|]; [|discriminate].
      destruct (parse_frames fuel (skipn n rest)) as [fs'|] eqn:E;
        [|discriminate].
      injection H as <-. destruct (IH _ _ E) as [Hs Hf].
      assert (Hlen : len (firstn n rest) = unpack_I b3 b2 b1 b0).
      { unfold len. rewrite length_firstn, Nat.min_l by exact Hle.
        unfold n. lia. }
      split.
      * cbn [map concat]. rewrite <- Hs. unfold frame.
        rewrite Hlen, pack_unpack. cbn [app].
        rewrite firstn_skipn. reflexivity.
      * constructor; [unfold fits; lia|exact Hf].
Qed.

(** X1: The byte strings that read back as frames are the concatenations of
    frames [write_audio_chunk] and [write_end_marker] lay out, and each
    reads back as the payloads it was made of: the format decodes in one
    way only. *)
Theorem frames_read_back (bs : list byte) (fs : list (list byte)) :
  read_frames bs = Some fs
  <-> bs = concat (map frame fs) /\ Forall fits fs.
Proof.
  split.
  - apply parse_frames_sound.
  - intros [-> Hf]. unfold read_frames.
    apply parse_frames_frames; [exact Hf|apply frames_length; exact Hf].
Qed.

Section RunProperties.

Variable json_loads : pystr -> loads_result.
Variable py_str : json -> pystr.
Variable load_model : pystr -> result Model.

(** ** The reader thread *)

Lemma stderr_grows_refl (w : World) : stderr_grows w w.
Proof. exists []. rewrite app_nil_r. reflexivity. Qed.

Lemma stderr_grows_eq (w w' : World) :
  stderr w' = stderr w -> stderr_grows w w'.
Proof. intros H. exists []. rewrite app_nil_r. exact H. Qed.

Lemma stderr_grows_trans (w1 w2 w3 : World) :
  stderr_grows w1 w2 -> stderr_grows w2 w3 -> stderr_grows w1 w3.
Proof.
  intros [l1 H1] [l2 H2]. exists (l1 ++ l2).
  rewrite H2, H1, app_assoc. reflexivity.
Qed.

Lemma stderr_grows_log (msg : pystr) (w : World) : stderr_grows w (log msg w).
Proof. eexists. reflexivity. Qed.

(** One turn of the reader thread takes at most the first line, adds to
    the queue and to stderr at their ends, and leaves the rest alone. *)
Lemma reader_step_only_reads_and_queues (w : World) :
  (exists read, stdin w = read ++ stdin (stdin_reader_step json_loads w)) /\
  (exists more,
      command_queue (stdin_reader_step json_loads w)
      = command_queue w ++ more) /\
  stderr_grows w (stdin_reader_step json_loads w) /\
  (reader_alive (stdin_reader_step json_loads w) = true ->
   reader_alive w = true) /\
  sched (stdin_reader_step json_loads w) = sched w.
Proof.
  destruct w as [sin alive flag q out err cl sch].
  unfold stdin_reader_step, stderr_grows. world_simpl.
  assert (Hq : exists more : list json, q = q ++ more)
    by (exists []; rewrite app_nil_r; reflexivity).
  assert (He : exists logged : list pystr, err = err ++ logged)
    by (exists []; rewrite app_nil_r; reflexivity).
  destruct alive;
    [|split; [exists []; reflexivity|]; world_simpl; auto].
  destruct sin as [|line rest];
    [split; [exists []; reflexivity|]; world_simpl; auto|].
  assert (Hs : exists read, line :: rest = read ++ rest)
    by (exists [line]; reflexivity).
  world_simpl.
  destruct (strip line); [world_simpl; auto|].
  destruct (json_loads _) as [v|msg|e].
  - destruct v; try (world_simpl; repeat (split; [assumption|]);
                     split; [discriminate|reflexivity]).
    destruct (json_eq_str _ _); world_simpl;
      (split; [exact Hs|]); (split; [eauto|]); auto.
  - unfold log. world_simpl.
    split; [exact Hs|]. split; [exact Hq|]. split; [eauto|]. auto.
  - world_simpl. repeat (split; [assumption|]).
    split; [discriminate|reflexivity].
Qed.

(** X3: The reader thread never writes to stdout and never calls the model;
    it takes lines from the front of stdin in order, adds commands at the
    end of the queue and lines at the end of stderr, never lowers the
    interrupt flag and never comes back to life. *)
Theorem reader_thread_only_reads_and_queues (n : nat) (w : World) :
  stdout (stdin_reader json_loads n w) = stdout w /\
  calls (stdin_reader json_loads n w) = calls w /\
  (exists read, stdin w = read ++ stdin (stdin_reader json_loads n w)) /\
  (exists more,
      command_queue (stdin_reader json_loads n w) = command_queue w ++ more) /\
  (exists logged,
      stderr (stdin_reader json_loads n w) = stderr w ++ logged) /\
  (interrupted w = true ->
   interrupted (stdin_reader json_loads n w) = true) /\
  (reader_alive (stdin_reader json_loads n w) = true ->
   reader_alive w = true).
Proof.
  revert w. induction n as [|n IH]; intros w; cbn [stdin_reader].
  - repeat split; try (exists []; rewrite ?app_nil_r; reflexivity); auto.
  - destruct (IH (stdin_reader_step json_loads w))
      as (Io & Ic & [r2 Ii] & [m2 Iq] & [l2 Ie] & If & Ia).
    destruct (steady_stdin_reader_step json_loads w) as (So & Sc & _).
    destruct (reader_step_only_reads_and_queues w)
      as ([r1 Si] & [m1 Sq] & [l1 Se] & Sa & _).
    split; [congruence|]. split; [congruence|].
    split; [exists (r1 ++ r2); rewrite <- app_assoc, <- Ii; exact Si|].
    split; [exists (m1 ++ m2); rewrite Iq, Sq, app_assoc; reflexivity|].
    split; [exists (l1 ++ l2); rewrite Ie, Se, app_assoc; reflexivity|].
    split.
    + intros H. apply If. apply reader_step_flag_stays. exact H.
    + intros H. apply Sa, Ia, H.
Qed.

Lemma stderr_grows_stdin_reader (n : nat) (w : World) :
  stderr_grows w (stdin_reader json_loads n w).
Proof.
  revert w. induction n as [|n IH]; intros w; cbn [stdin_reader].
  - apply stderr_grows_refl.
  - eapply stderr_grows_trans; [|apply IH].
    apply reader_step_only_reads_and_queues.
Qed.

Lemma stderr_grows_preempt (w : World) :
  stderr_grows w (preempt json_loads w).
Proof.
  unfold preempt. destruct (sched w) as [|n rest];
    [apply stderr_grows_refl|].
  exact (stderr_grows_stdin_reader n (with_sched rest w)).
Qed.

(** X4: While every line is blank, undecodable or an object, the reader thread
    stays alive and handles the lines one by one: a blank line is dropped,
    an undecodable one is logged and dropped, an interrupt sets the flag,
    any other object is queued. *)
Theorem reader_survives_undecodable_lines (n : nat) (w : World) :
  reader_alive w = true ->
  forallb (survivable json_loads) (firstn n (stdin w)) = true ->
  reader_alive (stdin_reader json_loads n w) = true /\
  stdin (stdin_reader json_loads n w) = skipn n (stdin w) /\
  command_queue (stdin_reader json_loads n w)
  = command_queue w ++ arrivals json_loads (firstn n (stdin w)) /\
  stderr (stdin_reader json_loads n w)
  = stderr w ++ diagnostics json_loads (firstn n (stdin w)) /\
  interrupted (stdin_reader json_loads n w)
  = interrupted w
    || existsb (is_interrupt_line json_loads) (firstn n (stdin w)) /\
  stdout (stdin_reader json_loads n w) = stdout w.
Proof.
  revert w. induction n as [|n IH]; intros w Ha Hs; cbn [stdin_reader].
  - cbn. rewrite !app_nil_r, orb_false_r. repeat split. exact Ha.
  - destruct w as [sin alive flag q out err cl sch]. world_simpl. subst alive.
    destruct sin as [|line rest].
    + specialize (IH (mkWorld [] true flag q out err cl sch) eq_refl).
      unfold stdin_reader_step. world_simpl.
      rewrite firstn_nil, skipn_nil in *. exact (IH eq_refl).
    + cbn [firstn forallb] in Hs. apply andb_prop in Hs.
      destruct Hs as [Hl Hr].
      unfold stdin_reader_step. world_simpl.
      unfold survivable in Hl.
      cbn [firstn skipn arrivals diagnostics existsb].
      unfold is_interrupt_line at 1.
      destruct (strip line) as [|c l].
      { destruct (IH (mkWorld rest true flag q out err cl sch) eq_refl Hr)
          as (A & B & C & D & E & F).
        world_simpl; world_norm; world_simpl. repeat split; assumption. }
      destruct (json_loads (c :: l)) as [v|msg|e]; [| |discriminate].
      * destruct v; try discriminate.
        destruct (json_eq_str (dict_get pairs (py "cmd") JNull)
                              (py "interrupt")).
        -- destruct (IH (mkWorld rest true true q out err cl sch) eq_refl Hr)
             as (A & B & C & D & E & F).
           world_simpl; world_norm; world_simpl. rewrite E. cbn [orb]. rewrite orb_true_r.
           repeat split; assumption.
        -- destruct (IH (mkWorld rest true flag (q ++ [JObject pairs]) out
                                 err cl sch) eq_refl Hr)
             as (A & B & C & D & E & F).
           world_simpl; world_norm; world_simpl. rewrite C, <- app_assoc.
           repeat split; assumption.
      * unfold log.
        destruct (IH (mkWorld rest true flag q out
                        (err ++ [py "[tts-server] "
                                 ++ (py "ERROR: Invalid JSON: " ++ msg)
                                 ++ newline]) cl sch) eq_refl Hr)
          as (A & B & C & D & E & F).
        world_simpl; world_norm; world_simpl. repeat split; try assumption.
        etransitivity; [exact D|]. rewrite <- app_assoc. reflexivity.
Qed.

(** ** A stream that throws *)

Lemma stream_loop_throw (chunks : list (list float32)) (e : exn)
                        (more : list pull) :
  Forall (fun audio => fits (float32_to_int16_pcm audio)) chunks ->
  forall w,
    interrupted w = false -> no_interrupt_ahead json_loads w ->
    stdout (stream_loop json_loads (map Yield chunks ++ Throw e :: more) w)
    = stdout w ++ concat (map frame (map float32_to_int16_pcm chunks)) /\
    exists pre,
      stderr (stream_loop json_loads (map Yield chunks ++ Throw e :: more) w)
      = stderr w ++ pre
        ++ [py "[tts-server] " ++ (py "ERROR: Generation failed: " ++ e)
              ++ newline].
Proof.
  induction 1 as [|audio chunks Hfit _ IH]; intros w Hf Hn;
    cbn [map app stream_loop concat].
  - split; [rewrite app_nil_r; reflexivity|]. exists []. reflexivity.
  - destruct (steady_preempt json_loads w) as (So & _).
    destruct (preempt_no_interrupt json_loads w Hn) as [Ef Hn'].
    destruct (stderr_grows_preempt w) as [l1 Se].
    set (w1 := preempt json_loads w) in *.
    rewrite Ef, Hf.
    destruct (write_audio_chunk _ w1) as [w2|e'] eqn:E.
    + apply write_audio_chunk_Ok in E. destruct E as [-> _].
      destruct (IH (stdout_write (frame (float32_to_int16_pcm audio)) w1))
        as (Ho & pre & He); [cbn; congruence|exact Hn'|].
      split.
      * rewrite Ho. cbn. rewrite So, <- app_assoc. reflexivity.
      * exists (l1 ++ pre). rewrite He. cbn. rewrite Se, <- !app_assoc.
        reflexivity.
    + exfalso. apply write_audio_chunk_Raised in E. destruct E as [e'' E].
      destruct (proj2 (struct_pack_I_Ok_iff
                         (len (float32_to_int16_pcm audio)))) as [h Hh];
        [unfold fits, len in *; lia|congruence].
Qed.

(** X5: When the model's stream throws after some chunks and no interrupt
    comes, [handle_generate] has written a frame for each chunk before the
    failure, logs the failure on stderr, writes the end marker all the
    same, and returns. *)
Theorem stream_failure_is_logged_and_closed
        (model : Model) (text voice : pystr) (w : World)
        (chunks : list (list float32)) (e : exn) (more : list pull) :
  strip text <> [] ->
  generate model text voice true = map Yield chunks ++ Throw e :: more ->
  Forall (fun audio => fits (float32_to_int16_pcm audio)) chunks ->
  interrupted w = false ->
  no_interrupt_ahead json_loads w ->
  exists w' before after,
    handle_generate json_loads model (JString text) voice w = Ok w' /\
    emitted w w'
    = concat (map frame (map float32_to_int16_pcm chunks)) ++ end_marker /\
    stderr w'
    = stderr w ++ before
      ++ (py "[tts-server] " ++ (py "ERROR: Generation failed: " ++ e)
            ++ newline) :: after /\
    calls w' = calls w ++ [(text, voice, true)].
Proof.
  intros Ht Hg Hfit Hf Hn. unfold handle_generate.
  destruct (strip text) as [|c l] eqn:Es; [contradiction|].
  rewrite Hg.
  set (w0 := with_calls (calls w ++ [(text, voice, true)]) w).
  destruct (stream_loop_throw chunks e more Hfit w0 Hf Hn) as (Ho & pre & He).
  destruct (stream_loop_spec json_loads
              (map Yield chunks ++ Throw e :: more) w0) as (k & _ & _ & Hc & _).
  eexists. exists pre, []. split; [reflexivity|].
  split; [|split].
  - apply emitted_app. rewrite stdout_write_end_marker, Ho, <- app_assoc.
    reflexivity.
  - exact He.
  - exact Hc.
Qed.

(** ** The loop of [main] *)

Lemma stderr_grows_stream_loop (results : list pull) (w : World) :
  stderr_grows w (stream_loop json_loads results w).
Proof.
  revert w. induction results as [|[audio|e] rest IH]; intros w;
    cbn [stream_loop].
  - apply stderr_grows_refl.
  - pose proof (stderr_grows_preempt w) as Hp.
    set (w1 := preempt json_loads w) in *.
    destruct (interrupted w1); [exact Hp|].
    destruct (write_audio_chunk _ w1) as [w2|e] eqn:E.
    + apply write_audio_chunk_Ok in E. destruct E as [-> _].
      eapply stderr_grows_trans; [exact Hp|].
      eapply stderr_grows_trans; [|apply IH].
      apply stderr_grows_eq. reflexivity.
    + eapply stderr_grows_trans; [exact Hp|apply stderr_grows_log].
  - apply stderr_grows_log.
Qed.

Lemma stderr_grows_handle_generate (model : Model) (text : json)
                                   (voice : pystr) (w w' : World) :
  handle_generate json_loads model text voice w = Ok w' -> stderr_grows w w'.
Proof.
  unfold handle_generate. destruct text; try discriminate.
  destruct (strip s); intros [= <-].
  - apply stderr_grows_eq. reflexivity.
  - destruct (stderr_grows_stream_loop
                (generate model s voice true)
                (with_calls (calls w ++ [(s, voice, true)]) w)) as [l H].
    exists l. exact H.
Qed.

Lemma stderr_grows_queue_get (fuel : nat) (w : World) :
  stderr_grows w (snd (queue_get json_loads fuel w)).
Proof.
  revert w. induction fuel as [|fuel IH]; intros w; cbn [queue_get];
    destruct (command_queue w); cbn [snd];
    try (apply stderr_grows_eq; reflexivity).
  destruct (reader_alive w); cbn [snd]; [|apply stderr_grows_refl].
  eapply stderr_grows_trans; [|apply IH].
  apply reader_step_only_reads_and_queues.
Qed.

Lemma stderr_grows_command_queue_get (w : World) :
  stderr_grows w (snd (command_queue_get json_loads w)).
Proof.
  unfold command_queue_get.
  eapply stderr_grows_trans; [apply stderr_grows_preempt|].
  apply stderr_grows_queue_get.
Qed.

Lemma generate_is_not_quit (cmd : json) :
  is_generate cmd = true -> is_quit cmd = false.
Proof.
  destruct cmd as [| | | | | |pairs]; try discriminate.
  unfold is_generate, is_quit, json_eq_str.
  destruct (dict_get pairs (py "cmd") JNull); try discriminate.
  intros H. apply pystr_eqb_eq in H. subst s. reflexivity.
Qed.

(** An iteration after which the loop goes on did not take a quit command;
    one that ends the run with an exit code took one and logged it. *)
Lemma dispatch_goes_on (model : Model) (voice : pystr) (cmd : json)
                       (w w' : World) :
  dispatch json_loads py_str model voice cmd w = (None, w') ->
  is_quit cmd = false /\ stderr_grows w w'.
Proof.
  unfold dispatch. destruct cmd as [| | | | | |pairs]; try discriminate.
  destruct (json_eq_str (dict_get pairs (py "cmd") JNull) (py "generate"))
    eqn:Eg.
  - destruct (handle_generate _ _ _ _ _) as [w1|e] eqn:Eh; [|discriminate].
    intros [= <-]. split; [apply generate_is_not_quit; exact Eg|].
    apply stderr_grows_handle_generate in Eh.
    eapply stderr_grows_trans; [apply stderr_grows_preempt|].
    destruct Eh as [l H]. exists l. exact H.
  - cbn [is_quit].
    destruct (json_eq_str (dict_get pairs (py "cmd") JNull) (py "quit"));
      [discriminate|].
    intros [= <-]. split; [reflexivity|apply stderr_grows_log].
Qed.

Lemma dispatch_exits (model : Model) (voice : pystr) (cmd : json)
                     (w w' : World) (code : Z) :
  dispatch json_loads py_str model voice cmd w = (Some (Exited code), w') ->
  code = 0 /\ is_quit cmd = true /\ w' = log (py "Shutting down") w.
Proof.
  unfold dispatch. destruct cmd as [| | | | | |pairs]; try discriminate.
  destruct (json_eq_str (dict_get pairs (py "cmd") JNull) (py "generate")).
  - destruct (handle_generate _ _ _ _ _); discriminate.
  - cbn [is_quit].
    destruct (json_eq_str (dict_get pairs (py "cmd") JNull) (py "quit"));
      [|discriminate].
    intros [= <- <-]. repeat split.
Qed.

Lemma main_loop_exit
      (fuel : nat) (model : Model) (voice : pystr) (w : World) (code : Z) :
  fst (main_loop json_loads py_str fuel model voice w) = Exited code ->
  code = 0 /\
  exists done q rest blocks logged,
    pending json_loads w = done ++ q :: rest /\
    Forall (fun cmd => is_quit cmd = false) done /\
    is_quit q = true /\
    pending json_loads (snd (main_loop json_loads py_str fuel model voice w))
    = rest /\
    Forall2 (generation_block model voice) (filter is_generate done) blocks /\
    stdout (snd (main_loop json_loads py_str fuel model voice w))
    = stdout w ++ concat blocks /\
    stderr (snd (main_loop json_loads py_str fuel model voice w))
    = stderr w ++ logged
      ++ [py "[tts-server] " ++ py "Shutting down" ++ newline].
Proof.
  revert w. induction fuel as [|fuel IH]; intros w; cbn [main_loop];
    [discriminate|].
  destruct (command_queue_get_spec json_loads w) as (Go & _ & _ & Gm).
  pose proof (stderr_grows_command_queue_get w) as Ge.
  destruct (command_queue_get json_loads w) as [[cmd|] w1]; cbn [fst snd] in *;
    [|discriminate].
  pose proof (dispatch_spec json_loads py_str model voice cmd w1) as D.
  cbn zeta in D.
  destruct (dispatch json_loads py_str model voice cmd w1) as [[o|] w2] eqn:Ed;
    cbn [fst snd] in *.
  - intros ->. destruct (dispatch_exits _ _ _ _ _ _ Ed) as (-> & Hq & ->).
    destruct D as (Dp & _ & Do & _).
    split; [reflexivity|].
    destruct Ge as [l Ge].
    exists [], cmd, (pending json_loads w1), [], l.
    cbn [app filter concat]. rewrite app_nil_r.
    split; [exact Gm|]. split; [constructor|]. split; [exact Hq|].
    split; [exact Dp|]. split; [constructor|]. split; [congruence|].
    unfold log. world_simpl. rewrite Ge, <- app_assoc. reflexivity.
  - intros H. destruct (IH w2 H)
      as (-> & done & q & rest & blocks & l2 & Hp & Hd & Hq & Hr & Hb & Ho & He).
    split; [reflexivity|].
    destruct (dispatch_goes_on _ _ _ _ _ Ed) as [Hnq [l1 De]].
    destruct Ge as [l0 Ge]. destruct D as (Dp & _ & Dm).
    destruct (is_generate cmd) eqn:Eg.
    + destruct Dm as (block & Hblk & Dout & _).
      exists (cmd :: done), q, rest, (block :: blocks), (l0 ++ l1 ++ l2).
      cbn [app filter concat]. rewrite Eg.
      split; [rewrite Gm, <- Dp, Hp; reflexivity|].
      split; [constructor; assumption|]. split; [exact Hq|].
      split; [exact Hr|]. split; [constructor; assumption|].
      split; [rewrite Ho, Dout, Go, <- app_assoc; reflexivity|].
      rewrite He, De, Ge, <- !app_assoc. reflexivity.
    + destruct Dm as (Dout & _).
      exists (cmd :: done), q, rest, blocks, (l0 ++ l1 ++ l2).
      cbn [app filter]. rewrite Eg.
      split; [rewrite Gm, <- Dp, Hp; reflexivity|].
      split; [constructor; assumption|]. split; [exact Hq|].
      split; [exact Hr|]. split; [exact Hb|].
      split; [rewrite Ho, Dout, Go; reflexivity|].
      rewrite He, De, Ge, <- !app_assoc. reflexivity.
Qed.

(** X6: A run of the loop that ends with an exit code ends with code 0, at the
    first quit command among the commands to come: the commands before it
    were all taken, in order, those after it are left where they were, and
    the line [main] logs after its loop is on stderr. *)
Theorem quit_stops_at_the_first_quit_command
        (fuel : nat) (model : Model) (voice : pystr) (w : World) (code : Z) :
  fst (main_loop json_loads py_str fuel model voice w) = Exited code ->
  code = 0 /\
  exists done q rest blocks before after,
    pending json_loads w = done ++ q :: rest /\
    Forall (fun cmd => is_quit cmd = false) done /\
    is_quit q = true /\
    pending json_loads (snd (main_loop json_loads py_str fuel model voice w))
    = rest /\
    Forall2 (generation_block model voice) (filter is_generate done) blocks /\
    stdout (snd (main_loop json_loads py_str fuel model voice w))
    = stdout w ++ concat blocks /\
    stderr (snd (main_loop json_loads py_str fuel model voice w))
    = stderr w ++ before
      ++ (py "[tts-server] " ++ py "Shutting down" ++ newline) :: after.
Proof.
  intros H. destruct (main_loop_exit fuel model voice w code H)
    as (Hc & done & q & rest & blocks & logged & A & B & C & D & E & F & G).
  split; [exact Hc|].
  exists done, q, rest, blocks, logged, [].
  repeat (split; [assumption|]). exact G.
Qed.

(** X7: Only generate commands make output: when none is among the commands
    to come, the loop writes nothing to stdout and never calls the model,
    whatever else arrives. *)
Theorem no_output_without_a_generate_command
        (fuel : nat) (model : Model) (voice : pystr) (w : World) :
  Forall (fun cmd => is_generate cmd = false) (pending json_loads w) ->
  stdout (snd (main_loop json_loads py_str fuel model voice w)) = stdout w /\
  calls (snd (main_loop json_loads py_str fuel model voice w)) = calls w.
Proof.
  intros Hn.
  destruct (main_loop_spec json_loads py_str fuel model voice w)
    as (done & rest & blocks & Hp & Hb & Ho & Hc & _).
  cbn zeta in Ho, Hc. rewrite Hp in Hn. apply Forall_app in Hn.
  destruct Hn as [Hd _].
  assert (E : filter is_generate done = []).
  { clear -Hd. induction Hd as [|cmd done Hcmd _ IH]; [reflexivity|].
    cbn [filter]. rewrite Hcmd. exact IH. }
  rewrite E in Hb, Hc. inversion Hb; subst.
  cbn [concat flat_map] in Ho, Hc. rewrite !app_nil_r in *.
  split; assumption.
Qed.

(** X8: A generate command whose text is not a string ends the main thread:
    [text.strip()] raises before anything is written, so the client gets
    neither a frame nor an end marker for it, and no later command is
    taken. *)
Theorem text_that_is_no_string_ends_the_main_thread
        (fuel : nat) (model : Model) (voice : pystr) (w : World)
        (cmd : json) (rest : list json) :
  pending json_loads w = cmd :: rest ->
  is_generate cmd = true ->
  (forall s, text_of cmd <> JString s) ->
  fst (main_loop json_loads py_str (S fuel) model voice w)
  = Crashed (attribute_error (text_of cmd) "strip") /\
  stdout (snd (main_loop json_loads py_str (S fuel) model voice w))
  = stdout w /\
  calls (snd (main_loop json_loads py_str (S fuel) model voice w))
  = calls w /\
  pending json_loads
    (snd (main_loop json_loads py_str (S fuel) model voice w)) = rest.
Proof.
  intros Hp Hg Ht. cbn [main_loop].
  destruct (command_queue_get_spec json_loads w) as (Go & Gc & _ & Gm).
  destruct (command_queue_get json_loads w) as [[c|] w1]; cbn [fst snd] in *;
    [|congruence].
  rewrite Hp in Gm. injection Gm as <- Hrest.
  pose proof (dispatch_spec json_loads py_str model voice cmd w1) as D.
  cbn zeta in D.
  assert (E : fst (dispatch json_loads py_str model voice cmd w1)
              = Some (Crashed (attribute_error (text_of cmd) "strip"))).
  { destruct cmd as [| | | | | |pairs]; try discriminate.
    unfold dispatch. cbn [is_generate] in Hg. rewrite Hg.
    cbn [text_of] in Ht |- *.
    rewrite (handle_generate_not_str json_loads model _ voice _ Ht).
    reflexivity. }
  destruct (dispatch json_loads py_str model voice cmd w1) as [o w2].
  cbn [fst snd] in *. subst o. cbn [fst snd].
  destruct D as (Dp & _ & Do & Dc & _).
  repeat split; congruence.
Qed.

Lemma arrivals_length (lines : list pystr) :
  (length (arrivals json_loads lines) <= length lines)%nat.
Proof.
  induction lines as [|line rest IH]; cbn [arrivals length]; [lia|].
  destruct (strip line); [lia|].
  destruct (json_loads _) as [v|msg|e]; cbn [length]; try lia.
  destruct v; cbn [length]; try lia.
  destruct (json_eq_str _ _); cbn [length]; lia.
Qed.

(** X9: The loop takes at most one command per iteration, and the reader
    thread queues at most one per line: a run of [main] over any input and
    any interleaving ends.  It exits with code 1 when the model does not
    load and with code 0 on a quit command; otherwise the main thread dies
    of an exception or waits on the queue with every queued command
    taken. *)
Theorem a_run_of_main_ends (argv : list pystr) (w : World) :
  match fst (main json_loads py_str load_model argv w) with
  | Exited code =>
      (code = 1 /\ exists e, load_model (argv_model_id argv) = Raised e) \/
      (code = 0 /\ exists model, load_model (argv_model_id argv) = Ok model)
  | Crashed _ => exists model, load_model (argv_model_id argv) = Ok model
  | Blocked => exists model, load_model (argv_model_id argv) = Ok model
  | OutOfFuel => False
  end.
Proof.
  unfold main. pose proof (startup_spec load_model argv w) as S.
  destruct (load_model (argv_model_id argv)) as [model|e] eqn:El.
  - destruct S as (Sf & _ & Si & _).
    destruct (startup load_model argv w) as [[[m v]|e] w1];
      cbn [fst snd] in *; [|discriminate].
    injection Sf as -> ->.
    set (w0 := with_reader_alive true
                 (with_interrupted false (with_command_queue [] w1))).
    destruct (main_loop_spec json_loads py_str (S (length (stdin w0)))
                             model (argv_voice argv) w0)
      as (done & rest & blocks & Hp & _ & _ & _ & _ & Hm).
    cbn zeta in Hm.
    destruct (fst (main_loop json_loads py_str (S (length (stdin w0)))
                             model (argv_voice argv) w0)).
    + right. destruct Hm as [-> _]. split; [reflexivity|eauto].
    + eauto.
    + eauto.
    + apply (f_equal (@length json)) in Hp.
      rewrite length_app in Hp. unfold pending in Hp.
      change (command_queue w0) with (@nil json) in Hp.
      change (reader_alive w0) with true in Hp. cbn [app] in Hp.
      pose proof (arrivals_length (stdin w0)). lia.
  - rewrite S. cbn [fst]. left. split; [reflexivity|eauto].
Qed.

Lemma invocation_calls (voice : pystr) (cmds : list json) :
  Forall (fun call => exists text,
              call = (text, voice, true) /\ strip text <> [])
         (flat_map (invocation voice) cmds).
Proof.
  induction cmds as [|cmd cmds IH]; cbn [flat_map]; [constructor|].
  apply Forall_app. split; [|exact IH].
  unfold invocation, call_for. destruct (text_of cmd); try constructor.
  destruct (strip s) eqn:Es; constructor; [|constructor].
  exists s. split; [reflexivity|congruence].
Qed.

(** The loop goes on after a command exactly when the command does not
    end it. *)
Lemma dispatch_ends (model : Model) (voice : pystr) (cmd : json) (w : World) :
  match fst (dispatch json_loads py_str model voice cmd w) with
  | None => ends_loop cmd = false
  | Some (Exited _) => is_quit cmd = true
  | Some (Crashed _) => ends_loop cmd = true
  | Some _ => False
  end.
Proof.
  destruct cmd as [| | | | | |pairs]; try reflexivity.
  pose proof (generate_is_not_quit (JObject pairs)) as Hq.
  unfold dispatch, ends_loop, is_quit, is_generate, text_of in *.
  destruct (json_eq_str (dict_get pairs (py "cmd") JNull) (py "generate")).
  - rewrite (Hq eq_refl). cbn [orb andb].
    destruct (dict_get pairs (py "text") (JString [])); try reflexivity.
    cbn [handle_generate]. destruct (strip s); reflexivity.
  - cbn [andb]. rewrite orb_false_r.
    destruct (json_eq_str (dict_get pairs (py "cmd") JNull) (py "quit"));
      reflexivity.
Qed.

(** The commands the loop takes are those that come before the first
    command that ends it, and the model is called for the generate
    commands among them. *)
Lemma main_loop_takes (fuel : nat) (model : Model) (voice : pystr) :
  forall w,
    exists done rest,
      pending json_loads w = done ++ rest /\
      Forall (fun cmd => ends_loop cmd = false) done /\
      calls (snd (main_loop json_loads py_str fuel model voice w))
      = calls w ++ flat_map (invocation voice) (filter is_generate done) /\
      match fst (main_loop json_loads py_str fuel model voice w) with
      | Blocked => rest = []
      | Exited _ => exists q rest', rest = q :: rest' /\ is_quit q = true
      | Crashed _ =>
          exists cmd rest', rest = cmd :: rest' /\ ends_loop cmd = true
      | OutOfFuel => fuel = length done
      end.
Proof.
  induction fuel as [|fuel IH]; intros w; cbn [main_loop].
  - exists [], (pending json_loads w). cbn. rewrite app_nil_r.
    repeat split. constructor.
  - destruct (command_queue_get_spec json_loads w) as (_ & Gc & _ & Gm).
    destruct (command_queue_get json_loads w) as [[cmd|] w1];
      cbn [fst snd] in *.
    + pose proof (dispatch_spec json_loads py_str model voice cmd w1) as D.
      pose proof (dispatch_ends model voice cmd w1) as E.
      cbn zeta in D.
      destruct (dispatch json_loads py_str model voice cmd w1) as [[o|] w2];
        cbn [fst snd] in *.
      * destruct D as (_ & _ & _ & Dc & _).
        exists [], (pending json_loads w). cbn [app filter flat_map length].
        rewrite app_nil_r. split; [reflexivity|]. split; [constructor|].
        split; [congruence|].
        destruct o; try contradiction;
          exists cmd, (pending json_loads w1); split; assumption.
      * destruct D as (Dp & _ & Dm).
        destruct (IH w2) as (done & rest & Hp & Hd & Hc & Hm).
        exists (cmd :: done), rest.
        split; [rewrite Gm, <- Dp, Hp; reflexivity|].
        split; [constructor; assumption|].
        split.
        -- rewrite Hc. cbn [filter].
           destruct (is_generate cmd).
           ++ destruct Dm as (block & _ & _ & Dc). cbn [flat_map].
              rewrite Dc, Gc, <- app_assoc. reflexivity.
           ++ destruct Dm as (_ & Dc). rewrite Dc, Gc. reflexivity.
        -- destruct (fst (main_loop json_loads py_str fuel model voice w2));
             try assumption. cbn [length]. congruence.
    + exists [], []. cbn. rewrite app_nil_r. repeat split; try congruence.
      constructor.
Qed.

(** X10: When the model loads, the calls of the model in a run are the
    warm-up on "Hello.", not streamed, and then one streamed call for
    each generate command with a text that is not blank among the commands
    the loop took, in arrival order and on that text.  The commands taken
    are those that arrive before the first command that ends the loop:
    all of them when the run ends waiting on the queue.  Every call uses
    the voice of the command line (or the default voice). *)
Theorem model_calls_of_a_run (argv : list pystr) (w : World) (model : Model) :
  load_model (argv_model_id argv) = Ok model ->
  exists done rest,
    arrivals json_loads (stdin w) = done ++ rest /\
    Forall (fun cmd => ends_loop cmd = false) done /\
    match fst (main json_loads py_str load_model argv w) with
    | Blocked => rest = []
    | Exited _ => exists q rest', rest = q :: rest' /\ is_quit q = true
    | Crashed _ => exists cmd rest', rest = cmd :: rest' /\ ends_loop cmd = true
    | OutOfFuel => False
    end /\
    calls (snd (main json_loads py_str load_model argv w))
    = calls w ++ (py "Hello.", argv_voice argv, false)
              :: flat_map (invocation (argv_voice argv))
                          (filter is_generate done) /\
    Forall (fun call => exists text,
                call = (text, argv_voice argv, true) /\ strip text <> [])
           (flat_map (invocation (argv_voice argv))
                     (filter is_generate done)).
Proof.
  intros El. unfold main. pose proof (startup_spec load_model argv w) as S.
  rewrite El in S. destruct S as (Sf & _ & Si & Sc & _).
  destruct (startup load_model argv w) as [[[m v]|e] w1];
    cbn [fst snd] in *; [|discriminate].
  injection Sf as -> ->.
  set (w0 := with_reader_alive true
               (with_interrupted false (with_command_queue [] w1))).
  destruct (main_loop_takes (S (length (stdin w0))) model (argv_voice argv) w0)
    as (done & rest & Hp & Hd & Hc & Hm).
  assert (Ha : arrivals json_loads (stdin w) = done ++ rest).
  { rewrite <- Hp, <- Si. reflexivity. }
  exists done, rest. split; [exact Ha|]. split; [exact Hd|].
  split.
  { destruct (fst (main_loop json_loads py_str (S (length (stdin w0)))
                             model (argv_voice argv) w0)); try exact Hm.
    apply (f_equal (@length json)) in Ha. rewrite length_app in Ha.
    pose proof (arrivals_length (stdin w)).
    change (stdin w0) with (stdin w1) in Hm. rewrite Si in Hm. lia. }
  split; [|apply invocation_calls].
  rewrite Hc. change (calls w0) with (calls w1).
  rewrite Sc, <- app_assoc. reflexivity.
Qed.

(** ** What a client reads *)




End RunProperties.

(** ** The startup audio script *)

Lemma pcm_app (a b : list float32) :
  float32_to_int16_pcm (a ++ b)
  = float32_to_int16_pcm a ++ float32_to_int16_pcm b.
Proof. rewrite !pcm_flat_map. apply flat_map_app. Qed.

Lemma pcm_concat (chunks : list (list float32)) :
  float32_to_int16_pcm (concat chunks)
  = concat (map float32_to_int16_pcm chunks).
Proof.
  induction chunks as [|audio chunks IH]; [reflexivity|].
  cbn [concat map]. rewrite pcm_app, IH. reflexivity.
Qed.

Lemma collect_chunks_Ok (results : list pull) (chunks : list (list float32)) :
  collect_chunks results = Ok chunks <-> results = map Yield chunks.
Proof.
  revert chunks. induction results as [|[audio|e] rest IH]; intros chunks;
    cbn [collect_chunks].
  - split.
    + intros [= <-]. reflexivity.
    + destruct chunks; [reflexivity|discriminate].
  - destruct (collect_chunks rest) as [cs|e] eqn:E.
    + split.
      * intros [= <-]. cbn [map]. f_equal. apply IH. reflexivity.
      * destruct chunks as [|c chunks]; [discriminate|].
        intros [= <- H]. apply IH in H. congruence.
    + split; [discriminate|].
      destruct chunks as [|c chunks]; [discriminate|].
      intros [= _ H]. apply IH in H. discriminate.
  - split; [discriminate|]. destruct chunks; discriminate.
Qed.

Lemma collect_chunks_Raised (results : list pull) (e : exn) :
  collect_chunks results = Raised e <->
  exists chunks more, results = map Yield chunks ++ Throw e :: more.
Proof.
  induction results as [|[audio|e'] rest IH]; cbn [collect_chunks].
  - split; [discriminate|]. intros ([|c cs] & more & H); discriminate.
  - destruct (collect_chunks rest) as [cs|e''] eqn:E.
    + split; [discriminate|].
      intros ([|c cs'] & more & H); [discriminate|].
      injection H as _ H.
      assert (X : Ok cs = Raised e) by (apply IH; eauto). discriminate.
    + split.
      * intros [= ->]. destruct (proj1 IH eq_refl) as (cs & more & ->).
        exists (audio :: cs), more. reflexivity.
      * intros ([|c cs'] & more & H); [discriminate|].
        injection H as _ H.
        assert (X : Raised e'' = Raised e) by (apply IH; eauto). exact X.
  - split.
    + intros [= ->]. exists [], rest. reflexivity.
    + intros ([|c cs'] & more & H); [|discriminate].
      injection H as -> _. reflexivity.
Qed.

Lemma map_Yield_inj (a b : list (list float32)) :
  map Yield a = map Yield b -> a = b.
Proof.
  revert b. induction a as [|x a IH]; intros [|y b]; try discriminate;
    [reflexivity|].
  intros [= -> H]. f_equal. apply IH, H.
Qed.

Lemma writable_yields (chunks : list (list float32)) :
  Forall (fun audio => fits (float32_to_int16_pcm audio)) chunks ->
  writable (map Yield chunks) = map float32_to_int16_pcm chunks.
Proof.
  induction 1 as [|audio chunks Hfit _ IH]; cbn [map writable];
    [reflexivity|].
  destruct (proj2 (struct_pack_I_Ok_iff (len (float32_to_int16_pcm audio))))
    as [h Hh]; [unfold fits, len in *; lia|].
  rewrite Hh, IH. reflexivity.
Qed.

(** X11: The script writes [startup.pcm] exactly when the model loads and its
    stream yields at least one chunk and runs to its end without throwing;
    the file is then the encoding of all the samples in order.  A stream
    that throws makes the script exit with code 1, whatever it yielded
    before, and an empty stream makes [np.concatenate] raise: no file in
    either case. *)
Theorem startup_audio_file_is_all_or_nothing
        (load_model : pystr -> result Model) :
  (forall pcm,
      snd (StartupAudio.main load_model) = Some pcm <->
      exists model chunks,
        load_model StartupAudio.MODEL_ID = Ok model /\
        generate model StartupAudio.STARTUP_TEXT StartupAudio.VOICE true
        = map Yield chunks /\
        chunks <> [] /\
        pcm = float32_to_int16_pcm (concat chunks)) /\
  (forall code,
      fst (StartupAudio.main load_model) = ScriptExit code <->
      code = 1 /\
      exists model chunks e more,
        load_model StartupAudio.MODEL_ID = Ok model /\
        generate model StartupAudio.STARTUP_TEXT StartupAudio.VOICE true
        = map Yield chunks ++ Throw e :: more).
Proof.
  unfold StartupAudio.main.
  destruct (load_model StartupAudio.MODEL_ID) as [model|e] eqn:El.
  - destruct (collect_chunks
                (generate model StartupAudio.STARTUP_TEXT StartupAudio.VOICE
                          true))
      as [chunks|e] eqn:Ec.
    + apply collect_chunks_Ok in Ec. split.
      * intros pcm. destruct chunks as [|c chunks]; cbn [snd].
        -- split; [discriminate|].
           intros (m & cs & [= <-] & Hg & Hne & _). rewrite Ec in Hg.
           destruct cs; [contradiction|discriminate].
        -- cbn zeta.
           destruct (sample_rate model =? 0); cbn [snd];
             (split;
              [intros [= <-]; exists model, (c :: chunks);
               repeat split; [exact Ec|discriminate]
              |intros (m & cs & [= <-] & Hg & _ & ->); rewrite Ec in Hg;
               apply map_Yield_inj in Hg; rewrite Hg; reflexivity]).
      * intros code. split.
        -- destruct chunks; [discriminate|].
           destruct (sample_rate model =? 0); discriminate.
        -- intros (_ & m & cs & e & more & [= <-] & Hg).
           assert (X : collect_chunks
                         (generate model StartupAudio.STARTUP_TEXT
                                   StartupAudio.VOICE true)
                       = Raised e) by (apply collect_chunks_Raised; eauto).
           rewrite Ec in X.
           rewrite (proj2 (collect_chunks_Ok _ chunks) eq_refl) in X.
           discriminate.
    + cbn [fst snd]. split.
      * intros pcm. split; [discriminate|].
        intros (m & cs & [= <-] & Hg & _).
        rewrite (proj2 (collect_chunks_Ok _ cs) Hg) in Ec. discriminate.
      * intros code. split.
        -- intros [= <-]. split; [reflexivity|].
           destruct (proj1 (collect_chunks_Raised _ _) Ec) as (cs & more & Hg).
           exists model, cs, e, more. split; [reflexivity|exact Hg].
        -- intros [-> _]. reflexivity.
  - cbn [fst snd]. split.
    + intros pcm. split; [discriminate|].
      intros (m & cs & H & _). discriminate.
    + intros code. split; [discriminate|].
      intros (_ & m & cs & e' & more & H & _). discriminate.
Qed.

(** X12: The file the script writes is what a client of the server gets for the
    same text and voice: the payloads of the data frames of a generation
    that is not interrupted, one after the other. *)
Theorem startup_audio_is_what_the_server_streams
        (json_loads : pystr -> loads_result)
        (load_model : pystr -> result Model)
        (model : Model) (chunks : list (list float32)) (w : World) :
  load_model StartupAudio.MODEL_ID = Ok model ->
  generate model StartupAudio.STARTUP_TEXT StartupAudio.VOICE true
  = map Yield chunks ->
  chunks <> [] ->
  sample_rate model <> 0 ->
  Forall (fun audio => fits (float32_to_int16_pcm audio)) chunks ->
  interrupted w = false ->
  no_interrupt_ahead json_loads w ->
  exists w' data,
    handle_generate json_loads model (JString StartupAudio.STARTUP_TEXT)
                    StartupAudio.VOICE w
    = Ok w' /\
    read_frames (emitted w w') = Some (data ++ [[]]) /\
    StartupAudio.main load_model = (ScriptDone, Some (concat data)).
Proof.
  intros El Hg Hne Hsr Hfit Hf Hn.
  exists (write_end_marker
            (stream_loop json_loads (map Yield chunks)
               (with_calls
                  (calls w
                   ++ [(StartupAudio.STARTUP_TEXT, StartupAudio.VOICE, true)])
                  w))),
         (map float32_to_int16_pcm chunks).
  split; [|split].
  - unfold handle_generate.
    destruct (strip StartupAudio.STARTUP_TEXT) eqn:Es; [discriminate Es|].
    rewrite Hg. reflexivity.
  - pose proof (stream_loop_uninterrupted json_loads (map Yield chunks)
                  (with_calls
                     (calls w
                      ++ [(StartupAudio.STARTUP_TEXT, StartupAudio.VOICE,
                           true)]) w)
                  Hf Hn) as Ho.
    rewrite writable_yields in Ho by exact Hfit.
    rewrite (emitted_app w _ (concat (map frame (map float32_to_int16_pcm chunks))
                              ++ end_marker))
      by (rewrite stdout_write_end_marker, Ho, <- app_assoc; reflexivity).
    apply read_frames_stream.
    rewrite <- (writable_yields chunks Hfit). apply writable_fits.
  - unfold StartupAudio.main. rewrite El, Hg.
    rewrite (proj2 (collect_chunks_Ok _ chunks) eq_refl).
    destruct chunks as [|c chunks]; [contradiction|].
    destruct (Z.eqb_spec (sample_rate model) 0); [contradiction|].
    rewrite pcm_concat. reflexivity.
Qed.

(** ** Reading the samples back *)

Lemma wrap16_range (n : Z) : -32768 <= wrap16 n <= 32767.
Proof.
  unfold wrap16. pose proof (Z.mod_pos_bound (n + 32768) 65536). lia.
Qed.

Lemma int16_le_reads_back (n : Z) :
  -32768 <= n <= 32767 ->
  int16_of_le (byte_of_Z n) (byte_of_Z (Z.shiftr n 8)) = n.
Proof.
  intros Hn. unfold int16_of_le.
  rewrite !Z_of_byte_of_Z, Z.shiftr_div_pow2 by lia.
  change (2 ^ 8) with 256.
  pose proof (Z.div_mod n 256 ltac:(lia)).
  pose proof (Z.mod_pos_bound n 256 ltac:(lia)).
  pose proof (Z.div_mod (n / 256) 256 ltac:(lia)).
  pose proof (Z.mod_pos_bound (n / 256) 256 ltac:(lia)).
  unfold wrap16.
  assert (E : (n mod 256 + 256 * ((n / 256) mod 256) + 32768) mod 65536
              = n + 32768).
  { symmetry. apply Z.mod_unique with (- ((n / 256) / 256)); lia. }
  rewrite E. lia.
Qed.

Lemma sample_int16_range (x : float32) : -32768 <= sample_int16 x <= 32767.
Proof.
  unfold sample_int16, astype_int16.
  destruct (f32_trunc _); [apply wrap16_range|lia].
Qed.

(** X13: Read two bytes at a time, low byte first, as signed 16-bit integers,
    the bytes [float32_to_int16_pcm] returns are the int16 values of the
    samples, one per sample and in order: nothing is lost between the
    integers and the bytes. *)
Theorem pcm_bytes_read_back_as_the_samples (audio : list float32) :
  frombuffer_int16 (float32_to_int16_pcm audio)
  = Some (map sample_int16 audio) /\
  Forall (fun n => -32768 <= n <= 32767) (map sample_int16 audio).
Proof.
  split.
  - unfold float32_to_int16_pcm, tobytes. cbn zeta.
    induction audio as [|x audio IH]; [reflexivity|].
    cbn [map flat_map int16_le app frombuffer_int16].
    rewrite IH. cbn [option_map]. do 2 f_equal.
    apply (int16_le_reads_back (sample_int16 x)), sample_int16_range.
  - apply Forall_forall. intros n Hin. apply in_map_iff in Hin.
    destruct Hin as (x & <- & _). apply sample_int16_range.
Qed.

(** ** The encoder and the sign of a sample *)

Lemma SFcompare_opp (x y : float32) :
  SFcompare (SFopp x) (SFopp y) = SFcompare y x.
Proof.
  destruct x as [s1|s1| |s1 m1 e1], y as [s2|s2| |s2 m2 e2];
    try reflexivity;
    try (destruct s1; reflexivity); try (destruct s2; reflexivity);
    try (destruct s1, s2; reflexivity).
  assert (Hm : Pos.compare_cont Eq m2 m1 = CompOpp (Pos.compare_cont Eq m1 m2))
    by exact (Pos.compare_antisym m1 m2).
  destruct s1, s2; cbn [SFopp negb SFcompare]; try reflexivity;
    rewrite (Z.compare_antisym e1 e2), Hm;
    destruct (e1 ?= e2); cbn [CompOpp]; try reflexivity;
    destruct (Pos.compare_cont Eq m1 m2); reflexivity.
Qed.

Lemma f32_lt_opp (x y : float32) :
  f32_lt (SFopp x) (SFopp y) = f32_lt y x.
Proof. unfold f32_lt, SFltb. rewrite SFcompare_opp. reflexivity. Qed.

Lemma not_above_and_below (x : float32) :
  f32_lt (f32_of_Z 1) x = true -> f32_lt x (f32_of_Z (-1)) = false.
Proof.
  unfold f32_lt, SFltb. rewrite f32_of_Z_one, f32_of_Z_minus_one.
  destruct x as [s|s| |s m e];
    [destruct s; (discriminate || reflexivity)
    |destruct s; (discriminate || reflexivity)|discriminate|].
  destruct s; cbn [SFcompare]; (discriminate || reflexivity).
Qed.

Lemma clamp_unit_opp (x : float32) :
  clamp_unit (SFopp x) = SFopp (clamp_unit x).
Proof.
  unfold clamp_unit.
  change (f32_of_Z 1) with (SFopp (f32_of_Z (-1))) at 1.
  rewrite f32_lt_opp.
  change (f32_of_Z (-1)) with (SFopp (f32_of_Z 1)) at 2.
  rewrite f32_lt_opp.
  destruct (f32_lt (f32_of_Z 1) x) eqn:H1.
  - rewrite (not_above_and_below x H1). reflexivity.
  - destruct (f32_lt x (f32_of_Z (-1))); reflexivity.
Qed.

Lemma binary_round_aux_opp (s : bool) (m e : Z) (l : location) :
  binary_round_aux 24 128 (negb s) m e l
  = SFopp (binary_round_aux 24 128 s m e l).
Proof.
  unfold binary_round_aux.
  destruct (shr_fexp 24 128 m e l) as [mrs' e'].
  destruct (shr_fexp 24 128 _ e' loc_Exact) as [mrs'' e''].
  destruct (shr_m mrs''); [reflexivity| |reflexivity].
  destruct (e'' <=? 128 - 24); reflexivity.
Qed.

Lemma f32_mul_opp (c : float32) :
  f32_mul (SFopp c) (f32_of_Z 32767) = SFopp (f32_mul c (f32_of_Z 32767)).
Proof.
  rewrite f32_of_Z_32767. unfold f32_mul.
  destruct c as [s|s| |s m e]; cbn [SFopp SFmul];
    try reflexivity; try (destruct s; reflexivity).
  rewrite !xorb_false_r. apply binary_round_aux_opp.
Qed.

Lemma f32_trunc_opp (v : float32) :
  f32_trunc (SFopp v) = option_map Z.opp (f32_trunc v).
Proof.
  destruct v as [s|s| |s m e]; cbn [SFopp f32_trunc option_map];
    try reflexivity.
  f_equal. destruct s; cbn [negb cond_Zopp]; lia.
Qed.

(** X14: The encoder is odd: the opposite sample encodes as the opposite int16
    value.  A value at or below -1.0 goes to -32767, never to -32768. *)
Theorem encoder_is_odd (x : float32) :
  f32_valid x = true ->
  sample_int16 (SFopp x) = - sample_int16 x /\
  float32_to_int16_pcm [SFopp x] = int16_le (- sample_int16 x) /\
  -32767 <= sample_int16 x <= 32767.
Proof.
  intros Hv.
  assert (H : sample_int16 (SFopp x) = - sample_int16 x /\
              -32767 <= sample_int16 x <= 32767).
  { unfold sample_int16. rewrite !np_clip_clamp_unit.
    rewrite clamp_unit_opp, f32_mul_opp. unfold astype_int16.
    rewrite f32_trunc_opp.
    destruct (f32_isnan x) eqn:Hn.
    - destruct x; try discriminate. cbn. lia.
    - destruct (encode_in_range x Hv Hn) as (n & Ht & Hr & _).
      rewrite Ht. cbn [option_map]. unfold wrap16.
      rewrite !Z.mod_small by lia. lia. }
  destruct H as [Ho Hr]. split; [exact Ho|]. split; [|exact Hr].
  rewrite <- Ho. unfold float32_to_int16_pcm, tobytes, sample_int16.
  cbn [map flat_map]. apply app_nil_r.
Qed.

(** ** The further properties on concrete runs *)

(** A blank line, a line that is no JSON, a generate command and an
    interrupt: the reader thread logs one line, queues the command, sets
    the flag and is alive at the end. *)
Lemma reader_survives_undecodable_lines_witness :
  reader_alive (stdin_reader Json.loads 4 (initial_world some_lines []))
  = true /\
  command_queue (stdin_reader Json.loads 4 (initial_world some_lines []))
  = [JObject [(py "cmd", JString (py "generate"));
              (py "text", JString (py "ab"))]] /\
  length (stderr (stdin_reader Json.loads 4 (initial_world some_lines [])))
  = 1%nat /\
  interrupted (stdin_reader Json.loads 4 (initial_world some_lines []))
  = true.
Proof.
  destruct (reader_survives_undecodable_lines
              Json.loads 4 (initial_world some_lines []))
    as (A & _ & C & D & E & _).
  - reflexivity.
  - vm_compute. reflexivity.
  - split; [exact A|]. split; [rewrite C; vm_compute; reflexivity|].
    split; [rewrite D; vm_compute; reflexivity|].
    rewrite E. vm_compute. reflexivity.
Defined.

(** A stream of two chunks and then a failure: two data frames, the end
    marker, and the ERROR line on stderr. *)
Lemma stream_failure_is_logged_and_closed_witness :
  exists w' before after,
    handle_generate Json.loads scripted_model (JString (py "ab!a"))
                    DEFAULT_VOICE (initial_world [] [])
    = Ok w' /\
    emitted (initial_world [] []) w'
    = concat (map frame (map float32_to_int16_pcm
                           [[f32_of_Z (-1)]; [f32_of_Z 1]]))
      ++ end_marker /\
    stderr w'
    = [] ++ before
      ++ (py "[tts-server] "
          ++ (py "ERROR: Generation failed: " ++ py "model failure")
          ++ newline) :: after /\
    calls w' = [] ++ [(py "ab!a", DEFAULT_VOICE, true)].
Proof.
  apply (stream_failure_is_logged_and_closed
           Json.loads scripted_model (py "ab!a") DEFAULT_VOICE
           (initial_world [] [])
           [[f32_of_Z (-1)]; [f32_of_Z 1]] (py "model failure")
           [Yield [f32_of_Z (-1)]]).
  - vm_compute. discriminate.
  - vm_compute. reflexivity.
  - repeat constructor.
  - reflexivity.
  - constructor.
Defined.

(** A generate command, a quit command and another generate command: the
    run exits with code 0 and the second generation is never made. *)
Lemma quit_stops_at_the_first_quit_command_witness :
  0 = 0 /\
  exists done q rest blocks before after,
    pending Json.loads (initial_world commands_around_quit [])
    = done ++ q :: rest /\
    Forall (fun cmd => is_quit cmd = false) done /\
    is_quit q = true /\
    pending Json.loads
      (snd (main_loop Json.loads str_scalar 5 scripted_model DEFAULT_VOICE
                      (initial_world commands_around_quit [])))
    = rest /\
    Forall2 (generation_block scripted_model DEFAULT_VOICE)
            (filter is_generate done) blocks /\
    stdout (snd (main_loop Json.loads str_scalar 5 scripted_model
                           DEFAULT_VOICE
                           (initial_world commands_around_quit [])))
    = stdout (initial_world commands_around_quit []) ++ concat blocks /\
    stderr (snd (main_loop Json.loads str_scalar 5 scripted_model
                           DEFAULT_VOICE
                           (initial_world commands_around_quit [])))
    = stderr (initial_world commands_around_quit []) ++ before
      ++ (py "[tts-server] " ++ py "Shutting down" ++ newline) :: after.
Proof.
  apply (quit_stops_at_the_first_quit_command
           Json.loads str_scalar 5 scripted_model DEFAULT_VOICE
           (initial_world commands_around_quit []) 0).
  vm_compute. reflexivity.
Defined.

(** An unknown command and an object without a command: nothing on
    stdout, no call of the model. *)
Lemma no_output_without_a_generate_command_witness :
  stdout (snd (main_loop Json.loads str_scalar 3 scripted_model DEFAULT_VOICE
                         (initial_world unknown_commands [])))
  = [] /\
  calls (snd (main_loop Json.loads str_scalar 3 scripted_model DEFAULT_VOICE
                        (initial_world unknown_commands [])))
  = [].
Proof.
  apply (no_output_without_a_generate_command
           Json.loads str_scalar 3 scripted_model DEFAULT_VOICE
           (initial_world unknown_commands [])).
  vm_compute. repeat constructor.
Defined.

(** The command [{"cmd": "generate", "text": 5}]: the main thread dies of
    an AttributeError and stdout stays empty. *)
Lemma text_that_is_no_string_ends_the_main_thread_witness :
  fst (main_loop Json.loads str_scalar 1 scripted_model DEFAULT_VOICE
                 (initial_world [Json.line "{'cmd':'generate','text':5}"] []))
  = Crashed (py "'int' object has no attribute 'strip'") /\
  stdout (snd (main_loop Json.loads str_scalar 1 scripted_model DEFAULT_VOICE
                 (initial_world [Json.line "{'cmd':'generate','text':5}"] [])))
  = [].
Proof.
  destruct (text_that_is_no_string_ends_the_main_thread
              Json.loads str_scalar 0 scripted_model DEFAULT_VOICE
              (initial_world [Json.line "{'cmd':'generate','text':5}"] [])
              (JObject [(py "cmd", JString (py "generate"));
                        (py "text", JInt 5)]) [])
    as (A & B & _).
  - vm_compute. reflexivity.
  - vm_compute. reflexivity.
  - intros s. vm_compute. discriminate.
  - split; [rewrite A; vm_compute; reflexivity|exact B].
Defined.

(** A run with one generate command: the warm-up call and one streamed
    call on the text of the command, both with the default voice. *)
Lemma model_calls_of_a_run_witness :
  calls (snd (main Json.loads str_scalar scripted_load [py "tts-server.py"]
                   (initial_world
                      [Json.line "{'cmd':'generate','text':'ab'}"] [])))
  = [(py "Hello.", DEFAULT_VOICE, false); (py "ab", DEFAULT_VOICE, true)].
Proof.
  destruct (model_calls_of_a_run
              Json.loads str_scalar scripted_load [py "tts-server.py"]
              (initial_world [Json.line "{'cmd':'generate','text':'ab'}"] [])
              scripted_model)
    as (done & rest & Ha & _ & Hm & Hc & _).
  - vm_compute. reflexivity.
  - assert (E : fst (main Json.loads str_scalar scripted_load
                          [py "tts-server.py"]
                          (initial_world
                             [Json.line "{'cmd':'generate','text':'ab'}"] []))
                = Blocked) by (vm_compute; reflexivity).
    rewrite E in Hm. subst rest. rewrite app_nil_r in Ha. subst done.
    rewrite Hc. vm_compute. reflexivity.
Defined.

(** A model that yields two chunks for the greeting: the file holds the
    payloads of the two data frames the server writes. *)
Lemma startup_audio_is_what_the_server_streams_witness :
  exists w' data,
    handle_generate Json.loads
                    (fixed_model [[f32_of_Z 1; f32_of_Z 0]; [f32_of_Z (-1)]])
                    (JString StartupAudio.STARTUP_TEXT) StartupAudio.VOICE
                    (initial_world [] [])
    = Ok w' /\
    read_frames (emitted (initial_world [] []) w') = Some (data ++ [[]]) /\
    StartupAudio.main
      (fun _ => Ok (fixed_model [[f32_of_Z 1; f32_of_Z 0]; [f32_of_Z (-1)]]))
    = (ScriptDone, Some (concat data)).
Proof.
  apply (startup_audio_is_what_the_server_streams
           Json.loads
           (fun _ => Ok (fixed_model [[f32_of_Z 1; f32_of_Z 0];
                                      [f32_of_Z (-1)]]))
           (fixed_model [[f32_of_Z 1; f32_of_Z 0]; [f32_of_Z (-1)]])
           [[f32_of_Z 1; f32_of_Z 0]; [f32_of_Z (-1)]]
           (initial_world [] [])).
  - reflexivity.
  - reflexivity.
  - discriminate.
  - vm_compute. discriminate.
  - repeat constructor.
  - reflexivity.
  - constructor.
Defined.

(** The sample 0.75 and its opposite: 24575 and -24575. *)
Lemma encoder_is_odd_witness :
  sample_int16 (S754_finite false 12582912 (-24)) = 24575 /\
  sample_int16 (S754_finite true 12582912 (-24)) = -24575 /\
  float32_to_int16_pcm [S754_finite true 12582912 (-24)] = [x01; xa0].
Proof.
  destruct (encoder_is_odd (S754_finite false 12582912 (-24)))
    as (A & B & _).
  - vm_compute. reflexivity.
  - assert (E : sample_int16 (S754_finite false 12582912 (-24)) = 24575)
      by (vm_compute; reflexivity).
    cbn [SFopp negb] in A, B. rewrite E in A, B.
    split; [exact E|]. split; [exact A|]. rewrite B. vm_compute. reflexivity.
Defined.
